(** * SmartBFSAsyncCrawler: a shallow embedding of [smart_fast_crawler.py]

    The crawler object, its helper predicates, the fetcher, the link
    extractor, the sitemap bootstrapper and the round-based scheduler are
    embedded as executable definitions.  Python strings are [string]s whose
    characters are read as the code points U+0000..U+00FF; Python integers
    are [Z]; the visited set is a [gset string]; the frontier queue and the
    result list are lists.  Exceptions of class [Exception] are the [Raise]
    constructor of [result]. *)

From Stdlib Require Import ZArith Ascii String.
From stdpp Require Import base decidable option list gmap strings.

Local Open Scope string_scope.
Local Open Scope Z_scope.
Local Open Scope list_scope.

(** ** Exceptions *)

Inductive result (A : Type) : Type :=
| Ok (a : A)
| Raise.
Arguments Ok {A} a.
Arguments Raise {A}.

#[global] Instance result_ret : MRet result := λ A a, Ok a.
#[global] Instance result_bind : MBind result := λ A B f m,
  match m with
  | Ok a => f a
  | Raise => Raise
  end.

(** [try: body except Exception: handler], the handler being a computation
    that may raise in its turn. *)
Definition try_catch {A} (body handler : result A) : result A :=
  match body with
  | Ok a => Ok a
  | Raise => handler
  end.

(** The same for a handler that only yields a value. *)
Definition try_except {A} (body : result A) (handler : A) : A :=
  match body with
  | Ok a => a
  | Raise => handler
  end.

(** ** Python string methods *)

Module Str.

Definition code (c : ascii) : N := N_of_ascii c.

(** [str.isspace] on one character below U+0100. *)
Definition isspace (c : ascii) : bool :=
  let n := code c in
  ((9 <=? n) && (n <=? 13) || (28 <=? n) && (n <=? 32)
   || (n =? 133) || (n =? 160))%N.

(** [str.lower] on one character below U+0100. *)
Definition lower_char (c : ascii) : ascii :=
  let n := code c in
  if ((65 <=? n) && (n <=? 90)
      || (192 <=? n) && (n <=? 222) && negb (n =? 215))%N
  then ascii_of_N (n + 32)
  else c.

Fixpoint lower (s : string) : string :=
  match s with
  | EmptyString => EmptyString
  | String c s' => String (lower_char c) (lower s')
  end.

(** [s.endswith(suffix)] for one suffix. *)
Fixpoint endswith (s suffix : string) : bool :=
  if String.eqb s suffix then true
  else match s with
       | EmptyString => false
       | String _ s' => endswith s' suffix
       end.

(** [s.endswith(suffixes)] for a tuple of suffixes. *)
Definition endswith_any (s : string) (suffixes : list string) : bool :=
  existsb (endswith s) suffixes.

Fixpoint lstrip_if (p : ascii → bool) (s : string) : string :=
  match s with
  | EmptyString => EmptyString
  | String c s' => if p c then lstrip_if p s' else s
  end.

Fixpoint rstrip_if (p : ascii → bool) (s : string) : string :=
  match s with
  | EmptyString => EmptyString
  | String c s' =>
      let r := rstrip_if p s' in
      if String.eqb r EmptyString && p c then EmptyString else String c r
  end.

(** [s.strip()] *)
Definition strip (s : string) : string :=
  lstrip_if isspace (rstrip_if isspace s).

(** [s.rstrip("/")] *)
Definition rstrip_slash (s : string) : string :=
  rstrip_if (Ascii.eqb "/") s.

(** [s.split("#")[0]] *)
Fixpoint before_hash (s : string) : string :=
  match s with
  | EmptyString => EmptyString
  | String c s' =>
      if Ascii.eqb c "#" then EmptyString else String c (before_hash s')
  end.

(** Truth value of a string: [if s:] *)
Definition truthy (s : string) : bool := negb (String.eqb s EmptyString).

End Str.

(** ** The extension denylist ([is_valid_url]) *)

Definition irrelevant_exts : list string :=
  [".jpg"; ".jpeg"; ".png"; ".gif"; ".css"; ".js"; ".ico";
   ".svg"; ".woff"; ".ttf"; ".otf"; ".eot"; ".pdf"; ".zip"; ".txt";
   ".xml"; ".mp4"; ".webm"; ".avi"; ".mp3"; ".json"].

Definition is_valid_url (url : string) : bool :=
  negb (Str.endswith_any (Str.lower url) irrelevant_exts).

(** ** Collaborating libraries

    [urllib.parse], BeautifulSoup, ElementTree and the built-in [set] are
    not part of the crawler; the crawler is embedded over an arbitrary
    implementation of the operations it calls. *)

Record ParseResult := { netloc : string; path : string }.

Class Library := {
  (** [urlparse(url)]; it raises [ValueError] on some strings. *)
  urlparse : string → result ParseResult;
  (** [urljoin(base, url)]; it parses both arguments and raises likewise. *)
  urljoin : string → string → result string;
  (** [tag.get("href")] for each [tag] of
      [BeautifulSoup(html, "html.parser").find_all("a", href=True)], or
      the exception of the parser when it rejects the markup. *)
  find_all_a_href : string → result (list string);
  (** [loc.text] for each [loc] of [ET.fromstring(text).findall(".//{ns}loc")],
      or the parse error. *)
  findall_loc : string → result (list (option string));
  (** The order in which a [for] loop visits a set that was built by adding
      the given strings one after the other. *)
  set_iter : list string → list string;
  set_iter_NoDup l : NoDup (set_iter l);
  set_iter_elem l x : x ∈ set_iter l ↔ x ∈ l;
}.

(** ** The network *)

(** What [session.get(url, ...)] does: it raises (connection error, timeout,
    invalid URL), or it delivers a response whose [text()] may raise too. *)
Inductive get_outcome :=
| GetRaised
| GetResponse (status : Z) (text : result string).

Record site := {
  (** [robot_parser.read()] for the given robots URL: the policy
      [can_fetch("*", _)] that was read, or the error raised. *)
  robots_read : string → result (string → result bool);
  (** The outcome of the request for the sitemap. *)
  sitemap_get : string → get_outcome;
}.

(** ** The crawler object *)

Record crawler := {
  base_url : string;
  base_domain : string;
  max_tasks : Z;
  max_depth : Z;
  urls_to_visit : list (string * Z);
  visited_urls : gset string;
  result_urls : list string;
  robot_parser : string → result bool;
  robots_loaded : bool;
  sitemap_loaded : bool;
}.

Definition set_urls_to_visit (q : list (string * Z)) (c : crawler) : crawler :=
  {| base_url := base_url c; base_domain := base_domain c;
     max_tasks := max_tasks c; max_depth := max_depth c;
     urls_to_visit := q; visited_urls := visited_urls c;
     result_urls := result_urls c; robot_parser := robot_parser c;
     robots_loaded := robots_loaded c; sitemap_loaded := sitemap_loaded c |}.

Definition set_visited_urls (v : gset string) (c : crawler) : crawler :=
  {| base_url := base_url c; base_domain := base_domain c;
     max_tasks := max_tasks c; max_depth := max_depth c;
     urls_to_visit := urls_to_visit c; visited_urls := v;
     result_urls := result_urls c; robot_parser := robot_parser c;
     robots_loaded := robots_loaded c; sitemap_loaded := sitemap_loaded c |}.

Definition set_result_urls (r : list string) (c : crawler) : crawler :=
  {| base_url := base_url c; base_domain := base_domain c;
     max_tasks := max_tasks c; max_depth := max_depth c;
     urls_to_visit := urls_to_visit c; visited_urls := visited_urls c;
     result_urls := r; robot_parser := robot_parser c;
     robots_loaded := robots_loaded c; sitemap_loaded := sitemap_loaded c |}.

Definition set_robots (policy : string → result bool) (c : crawler)
  : crawler :=
  {| base_url := base_url c; base_domain := base_domain c;
     max_tasks := max_tasks c; max_depth := max_depth c;
     urls_to_visit := urls_to_visit c; visited_urls := visited_urls c;
     result_urls := result_urls c; robot_parser := policy;
     robots_loaded := true; sitemap_loaded := sitemap_loaded c |}.

Definition set_sitemap_loaded (c : crawler) : crawler :=
  {| base_url := base_url c; base_domain := base_domain c;
     max_tasks := max_tasks c; max_depth := max_depth c;
     urls_to_visit := urls_to_visit c; visited_urls := visited_urls c;
     result_urls := result_urls c; robot_parser := robot_parser c;
     robots_loaded := robots_loaded c; sitemap_loaded := true |}.

(** The base URL as [__init__] stores it. *)
Definition with_slash (base_url : string) : string :=
  if Str.endswith base_url "/" then base_url else base_url +:+ "/".

Section Crawler.
Context `{!Library}.

(** [__init__].  [asyncio.Semaphore] raises [ValueError] for a negative
    value; a fresh [RobotFileParser] answers [False]. *)
Definition init (base_url : string) (max_tasks max_depth : Z)
  : result crawler :=
  parsed_base ← urlparse (with_slash base_url);
  if max_tasks <? 0 then Raise
  else Ok {| base_url := with_slash base_url;
             base_domain := netloc parsed_base;
             max_tasks := max_tasks; max_depth := max_depth;
             urls_to_visit := []; visited_urls := ∅; result_urls := [];
             robot_parser := λ _, Ok false;
             robots_loaded := false; sitemap_loaded := false |}.

Definition is_internal (c : crawler) (url : string) : result bool :=
  parsed ← urlparse url;
  Ok (String.eqb (netloc parsed) ""
      || String.eqb (netloc parsed) (base_domain c)).

Definition can_fetch (c : crawler) (url : string) : bool :=
  if negb (robots_loaded c) then true
  else try_except (robot_parser c url) true.

(** [fetch], given what the request does.  [Some html] is the page
    content, [None] is Python's [None]. *)
Definition fetch (r : get_outcome) : result (option string) :=
  try_catch
    (match r with
     | GetRaised => Raise
     | GetResponse status text =>
         if status =? 200 then
           html ← text;
           if Str.truthy html
              && (100 <? Z.of_nat (String.length (Str.strip html)))
           then Ok (Some html)
           else Ok None
         else Ok None
     end)
    (Ok None).

(** The loop of [parse_links] over the anchors, [links] being the strings
    added to the set so far. *)
Fixpoint parse_links_loop (c : crawler) (base_url : string)
    (hrefs : list string) (links : list string) : result (list string) :=
  match hrefs with
  | [] => Ok links
  | href :: hrefs' =>
      joined ← urljoin base_url (Str.strip href);
      let full_url := Str.rstrip_slash (Str.before_hash joined) in
      internal ← is_internal c full_url;
      if internal && is_valid_url full_url && can_fetch c full_url
      then parse_links_loop c base_url hrefs' (links ++ [full_url])
      else parse_links_loop c base_url hrefs' links
  end.

Definition parse_links (c : crawler) (html base_url : string)
  : result (list string) :=
  hrefs ← find_all_a_href html;
  parse_links_loop c base_url hrefs [].

(** The loop of [parse_sitemap] over the [loc] elements.  The flag tells
    whether the loop ran to its end; an exception (a [loc] without text,
    or [urlparse] raising) leaves it with the URLs added so far. *)
Fixpoint parse_sitemap_loop (c : crawler) (locs : list (option string))
    (urls : list string) : list string * bool :=
  match locs with
  | [] => (urls, true)
  | None :: _ => (urls, false)
  | Some text :: locs' =>
      let url := Str.strip text in
      match is_internal c url with
      | Raise => (urls, false)
      | Ok internal =>
          parse_sitemap_loop c locs'
            (if internal && is_valid_url url then urls ++ [url] else urls)
      end
  end.

(** [parse_sitemap]: the returned [urls] and the crawler, whose
    [sitemap_loaded] is set when the [try] block ran to its end. *)
Definition parse_sitemap (c : crawler) (r : get_outcome)
  : list string * crawler :=
  match r with
  | GetRaised => ([], c)
  | GetResponse status text =>
      if status =? 200 then
        match text with
        | Raise => ([], c)
        | Ok text =>
            match findall_loc text with
            | Raise => ([], c)
            | Ok locs =>
                let '(urls, completed) := parse_sitemap_loop c locs [] in
                (urls, if completed then set_sitemap_loaded c else c)
            end
        end
      else ([], c)
  end.

Definition put (entries : list (string * Z)) (c : crawler) : crawler :=
  set_urls_to_visit (urls_to_visit c ++ entries) c.

(** The [try] block of [crawl] that reads the robots policy. *)
Definition load_robots (w : site) (c : crawler) : crawler :=
  try_except
    (robots_url ← urljoin (base_url c) "/robots.txt";
     policy ← robots_read w robots_url;
     Ok (set_robots policy c))
    c.

(** Seeding of the queue (lines 107-112). *)
Definition seed (sitemap_urls : list string) (c : crawler) : crawler :=
  if sitemap_loaded c && negb (bool_decide (sitemap_urls = []))
  then foldl (λ c url, put [(url, 0)] c) c (set_iter sitemap_urls)
  else put [(base_url c, 0)] c.

(** [crawl] up to the [while] loop: robots policy, sitemap, seeding. *)
Definition crawl_begin (w : site) (c : crawler) : result crawler :=
  let c1 := load_robots w c in
  sitemap_url ← urljoin (base_url c1) "/sitemap.xml";
  let '(sitemap_urls, c2) := parse_sitemap c1 (sitemap_get w sitemap_url) in
  Ok (seed sitemap_urls c2).

(** *** Units of work

    [handle_url] touches the crawler twice: when the task starts and adds
    its URL to the visited set, and when its request has completed. *)

Definition handle_url_start (url : string) (c : crawler) : crawler :=
  set_visited_urls ({[url]} ∪ visited_urls c) c.

Definition unvisited (c : crawler) (link : string) : Prop :=
  link ∉ visited_urls c.

#[global] Instance unvisited_dec c link : Decision (unvisited c link).
Proof. unfold unvisited. apply _. Defined.

(** The loop of [handle_url] over the extracted links (lines 130-132). *)
Definition enqueue_links (depth : Z) (links : list string) (c : crawler)
  : crawler :=
  foldl (λ c link,
           if decide (unvisited c link) then put [(link, depth + 1)] c else c)
        c links.

Definition handle_url_resume (url : string) (depth : Z) (r : get_outcome)
    (c : crawler) : crawler * result () :=
  match fetch r with
  | Raise => (c, Raise)
  | Ok None => (c, Ok ())
  | Ok (Some html) =>
      if Str.truthy html then
        let c1 := set_result_urls (result_urls c ++ [url]) c in
        if depth <? max_depth c1 then
          match parse_links c1 html url with
          | Raise => (c1, Raise)
          | Ok links => (enqueue_links depth (set_iter links) c1, Ok ())
          end
        else (c1, Ok ())
      else (c, Ok ())
  end.

(** *** The scheduler *)

Inductive status := Created | Awaiting | Completed.

Record task := { t_url : string; t_depth : Z; t_status : status }.

Inductive crawl_phase :=
| Looping    (** inside the [while] loop, or waiting in [gather] *)
| Returned   (** the loop was left, [crawl] returned *)
| Failed.    (** an exception left [crawl] *)

(** [created] records every [create_task(self.handle_url(url, depth))]. *)
Record state := {
  self : crawler;
  tasks : list task;
  phase : crawl_phase;
  created : list (string * Z);
}.

(** The event loop runs one coroutine at a time, up to its next
    suspension.  [crawl] suspends only in [gather], until all units of the
    round are complete (a round takes at most [max_tasks] entries, so the
    semaphore never blocks).  A unit suspends only in its request.  A
    schedule is a list of events; an event that is not enabled leaves the
    state as it is. *)
Inductive event :=
| Main                               (** [crawl] runs one loop iteration *)
| Start (i : nat)                    (** unit [i] runs up to its request *)
| Finish (i : nat) (r : get_outcome). (** the request of unit [i] is over *)

Definition completed (t : task) : bool :=
  match t_status t with Completed => true | _ => false end.

(** The test of line 118. *)
Definition admitted (c : crawler) (entry : string * Z) : Prop :=
  (fst entry ∉ visited_urls c) ∧ (snd entry ≤ max_depth c).

#[global] Instance admitted_dec c entry : Decision (admitted c entry).
Proof. unfold admitted. apply _. Defined.

(** Number of entries one round takes from the queue. *)
Definition batch_size (c : crawler) : nat :=
  Z.to_nat (Z.min (max_tasks c) (Z.of_nat (length (urls_to_visit c)))).

(** The entries one round takes from the queue. *)
Definition batch (c : crawler) : list (string * Z) :=
  take (batch_size c) (urls_to_visit c).

Definition new_task (entry : string * Z) : task :=
  {| t_url := entry.1; t_depth := entry.2; t_status := Created |}.

Definition set_status (st : status) (t : task) : task :=
  {| t_url := t_url t; t_depth := t_depth t; t_status := st |}.

(** The [for] loop of a round (lines 116-119): [n] entries are taken from
    the queue, and those that pass the test get a unit of work.  No unit
    runs meanwhile, [get] on a non-empty queue does not suspend, so the
    visited set is the same for all [n] tests. *)
Fixpoint dequeue (c : crawler) (n : nat) (queue fresh : list (string * Z))
  : list (string * Z) * list (string * Z) :=
  match n, queue with
  | S n', entry :: queue' =>
      dequeue c n' queue'
        (if decide (admitted c entry) then fresh ++ [entry] else fresh)
  | _, _ => (queue, fresh)
  end.

(** One iteration of the [while] loop, from its test to [gather]. *)
Definition loop_iteration (s : state) : state :=
  let c := self s in
  match urls_to_visit c with
  | [] => {| self := c; tasks := []; phase := Returned; created := created s |}
  | _ :: _ =>
      let '(queue, fresh) := dequeue c (batch_size c) (urls_to_visit c) [] in
      {| self := set_urls_to_visit queue c;
         tasks := new_task <$> fresh;
         phase := Looping;
         created := created s ++ fresh |}
  end.

Definition step (s : state) (e : event) : state :=
  match e with
  | Main =>
      match phase s with
      | Looping => if forallb completed (tasks s) then loop_iteration s else s
      | _ => s
      end
  | Start i =>
      match tasks s !! i with
      | Some t =>
          match t_status t with
          | Created =>
              {| self := handle_url_start (t_url t) (self s);
                 tasks := <[i := set_status Awaiting t]> (tasks s);
                 phase := phase s; created := created s |}
          | _ => s
          end
      | None => s
      end
  | Finish i r =>
      match tasks s !! i with
      | Some t =>
          match t_status t with
          | Awaiting =>
              let '(c, outcome) :=
                handle_url_resume (t_url t) (t_depth t) r (self s) in
              {| self := c;
                 tasks := <[i := set_status Completed t]> (tasks s);
                 phase := match outcome with
                          | Ok _ => phase s
                          | Raise => Failed
                          end;
                 created := created s |}
          | _ => s
          end
      | None => s
      end
  end.

Definition run (s : state) (events : list event) : state :=
  foldl step s events.

(** The crawl from construction to the head of the [while] loop. *)
Definition start (base_url : string) (max_tasks max_depth : Z) (w : site)
  : result state :=
  c ← init base_url max_tasks max_depth;
  c' ← crawl_begin w c;
  Ok {| self := c'; tasks := []; phase := Looping; created := [] |}.

(** What [run()] hands back once [crawl] has returned. *)
Definition returned (s : state) : option (list string) :=
  match phase s with
  | Returned => Some (result_urls (self s))
  | _ => None
  end.

End Crawler.

(** ** A reference library and example sites

    An implementation of the collaborating libraries for the examples: it
    follows [urllib.parse] on URLs written with ASCII letters, digits and
    the delimiters [: / ? # . = - _] (no dot segments, no [;] parameters),
    reads anchors of the form [<a href='...'>] and [<loc>...</loc>]
    elements, rejects markup with an unknown marked section, and visits a set in the order of first insertion. *)

Module Reference.

Definition is_alpha (c : ascii) : bool :=
  let n := Str.code c in
  ((65 <=? n) && (n <=? 90) || (97 <=? n) && (n <=? 122))%N.

Definition is_scheme_char (c : ascii) : bool :=
  let n := Str.code c in
  (is_alpha c || (48 <=? n) && (n <=? 57)
   || (n =? 43) || (n =? 45) || (n =? 46))%N.

Fixpoint all_chars (p : ascii → bool) (s : string) : bool :=
  match s with
  | EmptyString => true
  | String c s' => p c && all_chars p s'
  end.

(** The part of [s] before the first character satisfying [p], and the rest
    starting at that character. *)
Fixpoint break (p : ascii → bool) (s : string) : string * string :=
  match s with
  | EmptyString => (EmptyString, EmptyString)
  | String c s' =>
      if p c then (EmptyString, s)
      else let '(a, b) := break p s' in (String c a, b)
  end.

Fixpoint drop (n : nat) (s : string) : string :=
  match n, s with
  | S n', String _ s' => drop n' s'
  | _, _ => s
  end.

Fixpoint contains (c : ascii) (s : string) : bool :=
  match s with
  | EmptyString => false
  | String c' s' => Ascii.eqb c c' || contains c s'
  end.

Record SplitResult := {
  sr_scheme : string;
  sr_netloc : string;
  sr_path : string;
  sr_tail : string;  (** the query and the fragment, with their delimiters *)
}.

Definition split_scheme (url : string) : string * string :=
  let '(before, rest) := break (Ascii.eqb ":") url in
  match before, rest with
  | String c _, String _ after =>
      if is_alpha c && all_chars is_scheme_char before
      then (Str.lower before, after)
      else (EmptyString, url)
  | _, _ => (EmptyString, url)
  end.

Definition is_netloc_end (c : ascii) : bool :=
  Ascii.eqb c "/" || Ascii.eqb c "?" || Ascii.eqb c "#".

Definition is_path_end (c : ascii) : bool :=
  Ascii.eqb c "?" || Ascii.eqb c "#".

Definition urlsplit (url : string) : result SplitResult :=
  let '(scheme, rest) := split_scheme url in
  let '(netloc, rest) :=
    if String.prefix "//" rest then break is_netloc_end (drop 2 rest)
    else (EmptyString, rest) in
  if xorb (contains "[" netloc) (contains "]" netloc) then Raise
  else
    let '(path, tail) := break is_path_end rest in
    Ok {| sr_scheme := scheme; sr_netloc := netloc;
          sr_path := path; sr_tail := tail |}.

Definition urlparse (url : string) : result ParseResult :=
  parts ← urlsplit url;
  Ok {| netloc := sr_netloc parts; path := sr_path parts |}.

(** The directory of a path: everything up to the last [/]. *)
Fixpoint dirname (p : string) : string :=
  match p with
  | EmptyString => EmptyString
  | String c p' =>
      if contains "/" p then String c (dirname p') else EmptyString
  end.

Definition until (c : ascii) (s : string) : string :=
  (break (Ascii.eqb c) s).1.

Definition uses_relative : list string :=
  [""; "ftp"; "http"; "gopher"; "nntp"; "imap"; "wais"; "file"; "https";
   "shttp"; "mms"; "prospero"; "rtsp"; "rtspu"; "sftp"; "svn"; "svn+ssh";
   "ws"; "wss"].

Definition uses_netloc : list string :=
  [""; "ftp"; "http"; "gopher"; "nntp"; "telnet"; "imap"; "wais"; "file";
   "mms"; "https"; "shttp"; "snews"; "prospero"; "rtsp"; "rtspu"; "rsync";
   "svn"; "svn+ssh"; "sftp"; "nfs"; "git"; "git+ssh"; "ws"; "wss"].

Definition urlunsplit (scheme netloc path tail : string) : string :=
  let url :=
    if Str.truthy netloc
       || Str.truthy scheme && bool_decide (scheme ∈ uses_netloc)
          && negb (String.prefix "//" path)
    then "//" +:+ netloc
         +:+ (if Str.truthy path && negb (String.prefix "/" path)
              then "/" +:+ path else path)
    else path in
  (if Str.truthy scheme then scheme +:+ ":" else "") +:+ url +:+ tail.

Definition urljoin (base url : string) : result string :=
  if negb (Str.truthy base) then Ok url
  else if negb (Str.truthy url) then Ok base
  else
    b ← urlsplit base;
    u ← urlsplit url;
    let scheme := if Str.truthy (sr_scheme u) then sr_scheme u
                  else sr_scheme b in
    if negb (String.eqb scheme (sr_scheme b))
       || negb (bool_decide (scheme ∈ uses_relative))
    then Ok url
    else if bool_decide (scheme ∈ uses_netloc) && Str.truthy (sr_netloc u)
    then Ok (urlunsplit scheme (sr_netloc u) (sr_path u) (sr_tail u))
    else
      let netloc := if bool_decide (scheme ∈ uses_netloc) then sr_netloc b
                    else sr_netloc u in
      if negb (Str.truthy (sr_path u))
      then Ok (urlunsplit scheme netloc (sr_path b)
                 (if String.prefix "?" (sr_tail u) then sr_tail u
                  else until "#" (sr_tail b) +:+ sr_tail u))
      else if String.prefix "/" (sr_path u)
      then Ok (urlunsplit scheme netloc (sr_path u) (sr_tail u))
      else Ok (urlunsplit scheme netloc (dirname (sr_path b) +:+ sr_path u)
                 (sr_tail u)).

Fixpoint anchors (html : string) : list string :=
  match html with
  | EmptyString => []
  | String _ html' =>
      (if String.prefix "<a href='" html then [until "'" (drop 9 html)]
       else [])
      ++ anchors html'
  end.

(** The keywords of marked sections [<![keyword[ ... ]]>] that the parser
    knows; it rejects the markup at any other keyword. *)
Definition marked_sections : list string :=
  ["temp"; "cdata"; "ignore"; "include"; "rcdata"; "if"; "else"; "endif"].

Fixpoint rejected (html : string) : bool :=
  match html with
  | EmptyString => false
  | String _ html' =>
      String.prefix "<![" html
      && negb (bool_decide
                 (Str.lower (until "[" (drop 3 html)) ∈ marked_sections))
      || rejected html'
  end.

Definition find_all_a_href (html : string) : result (list string) :=
  if rejected html then Raise else Ok (anchors html).

Fixpoint loc_texts (text : string) : list (option string) :=
  match text with
  | EmptyString => []
  | String _ text' =>
      (if String.prefix "<loc>" text
       then let t := until "<" (drop 5 text) in
            [if String.eqb t "" then None else Some t]
       else [])
      ++ loc_texts text'
  end.

Definition findall_loc (text : string) : result (list (option string)) :=
  if String.prefix "<" text then Ok (loc_texts text) else Raise.

Definition set_iter (l : list string) : list string := remove_dups l.

#[export] Instance library : Library :=
  Build_Library urlparse urljoin find_all_a_href findall_loc set_iter
    (λ l, NoDup_remove_dups l) (λ l x, elem_of_remove_dups l x).

End Reference.

(** ** Example sites *)

Module Example.

(** Filler that takes a page body over the 100-character floor. *)
Definition filler : string :=
  "<p>Lorem ipsum dolor sit amet, consectetur adipiscing elit, sed do eiusmod tempor incididunt ut labore.</p>".

Definition page (anchors : string) : string :=
  "<html><body>" +:+ anchors +:+ filler +:+ "</body></html>".

Definition home_html : string :=
  page "<a href='/a'>a</a> <a href='/b/#top'>b</a>".

Definition a_html : string :=
  page "<a href='https://example.test/b'>b</a> <a href='/c'>c</a> <a href='https://other.test/x'>x</a>".

Definition leaf_html : string := page "".

(** A page that links to [/a], [/b] and [/c]. *)
Definition hub_html : string :=
  page "<a href='/a'>a</a> <a href='/b'>b</a> <a href='/c'>c</a>".

Definition photo_html : string := page "<a href='/a.jpg?x=1'>photo</a>".

Definition broken_link_html : string := page "<a href='http://[bad'>?</a>".

(** A page with a marked section that the HTML parser does not know. *)
Definition unparsable_html : string := page "<![x[".

Definition ok (html : string) : get_outcome := GetResponse 200 (Ok html).

(** A site without robots policy and without sitemap. *)
Definition bare : site :=
  {| robots_read := λ _, Raise; sitemap_get := λ _, GetRaised |}.

Definition sitemap_xml (entries : string) : string :=
  "<urlset xmlns='http://www.sitemaps.org/schemas/sitemap/0.9'>"
  +:+ entries +:+ "</urlset>".

(** A site whose sitemap lists two pages. *)
Definition mapped : site :=
  {| robots_read := λ _, Ok (λ _, Ok true);
     sitemap_get := λ _, ok (sitemap_xml
       "<url><loc>https://example.test/a</loc></url><url><loc>https://example.test/b</loc></url>") |}.

(** A site whose sitemap has a [loc] element without text after a good one. *)
Definition half_mapped : site :=
  {| robots_read := λ _, Raise;
     sitemap_get := λ _, ok (sitemap_xml
       "<url><loc>https://example.test/a</loc></url><url><loc></loc></url>") |}.

(** A site whose robots policy denies everything under [/private]. *)
Definition guarded : site :=
  {| robots_read := λ _,
       Ok (λ url, Ok (negb (String.prefix "https://example.test/private" url)));
     sitemap_get := λ _, GetRaised |}.

(** The crawler that [__init__] builds for [https://example.test]. *)
Definition crawler0 (max_tasks max_depth : Z) : crawler :=
  {| base_url := "https://example.test/"; base_domain := "example.test";
     max_tasks := max_tasks; max_depth := max_depth;
     urls_to_visit := []; visited_urls := ∅; result_urls := [];
     robot_parser := λ _, Ok false;
     robots_loaded := false; sitemap_loaded := false |}.

(** The state at the head of the loop when that crawler crawls [bare]. *)
Definition seeded (max_tasks max_depth : Z) : state :=
  {| self := set_urls_to_visit [("https://example.test/", 0)]
               (crawler0 max_tasks max_depth);
     tasks := []; phase := Looping; created := [] |}.

(** One unit at a time: the home page, then [/a], then [/b]. *)
Definition three_rounds : list event :=
  [Main; Start 0; Finish 0 (ok home_html);
   Main; Start 0; Finish 0 (ok a_html);
   Main; Start 0; Finish 0 (ok leaf_html)].

(** One unit at a time on a site whose home page and pages [/a], [/b], [/c]
    all serve [hub_html].  After these four rounds the three pages are
    visited and the queue holds three entries of depth 2 for them,
    whatever the order in which the sets of links were visited. *)
Definition hub_rounds : list event :=
  [Main; Start 0; Finish 0 (ok hub_html);
   Main; Start 0; Finish 0 (ok hub_html);
   Main; Start 0; Finish 0 (ok hub_html);
   Main; Start 0; Finish 0 (ok hub_html)].

(** The home page alone, its request failing. *)
Definition failed_round : list event :=
  [Main; Start 0; Finish 0 GetRaised; Main].

End Example.

(** ** Predicates used in the statements *)

Section Predicates.
Context `{!Library}.

(** What the loop of [parse_links] checked for a URL it added. *)
Definition extracted (c : crawler) (base_url : string) (hrefs : list string)
    (u : string) : Prop :=
  ∃ href joined,
    href ∈ hrefs
    ∧ urljoin base_url (Str.strip href) = Ok joined
    ∧ u = Str.rstrip_slash (Str.before_hash joined)
    ∧ is_internal c u = Ok true
    ∧ is_valid_url u = true
    ∧ can_fetch c u = true.

(** Depth bookkeeping of a crawl with depth limit [md]: every unit ever
    created, and every unit of the current round, has a depth between 0
    and [md]; every queue entry has depth 0 or a depth between 1 and [md]. *)
Definition depth_inv (md : Z) (s : state) : Prop :=
  max_depth (self s) = md
  ∧ Forall (λ e, 0 ≤ e.2 ≤ md) (created s)
  ∧ Forall (λ t, 0 ≤ t_depth t ≤ md) (tasks s)
  ∧ Forall (λ e, 0 ≤ e.2 ≤ Z.max 0 md) (urls_to_visit (self s)).

(** Domain scoping of a crawl started from crawler [c0]: the queue, the
    units of the round and the result list hold same-domain URLs only. *)
Definition internal_inv (c0 : crawler) (s : state) : Prop :=
  base_domain (self s) = base_domain c0
  ∧ Forall (λ e, is_internal c0 e.1 = Ok true) (urls_to_visit (self s))
  ∧ Forall (λ t, is_internal c0 (t_url t) = Ok true) (tasks s)
  ∧ Forall (λ u, is_internal c0 u = Ok true) (result_urls (self s)).

(** [c'] differs from [c] at most in the robots policy and the two flags. *)
Definition same_crawl_data (c c' : crawler) : Prop :=
  base_url c' = base_url c ∧ base_domain c' = base_domain c
  ∧ max_tasks c' = max_tasks c ∧ max_depth c' = max_depth c
  ∧ urls_to_visit c' = urls_to_visit c
  ∧ visited_urls c' = visited_urls c
  ∧ result_urls c' = result_urls c.

(** A property of URLs that holds throughout the queue, the units of the
    round and the result list. *)
Definition urls_inv (P : string → Prop) (s : state) : Prop :=
  Forall (λ e, P e.1) (urls_to_visit (self s))
  ∧ Forall (λ t, P (t_url t)) (tasks s)
  ∧ Forall P (result_urls (self s)).

(** Bookkeeping of the visited set: a unit that has started is visited,
    every unit of the round was recorded when it was created, results are
    visited, and whatever is visited was once created as a unit. *)
Definition visited_inv (s : state) : Prop :=
  Forall (λ t, t_status t = Created ∨ t_url t ∈ visited_urls (self s))
    (tasks s)
  ∧ Forall (λ t, t_url t ∈ (created s).*1) (tasks s)
  ∧ Forall (λ u, u ∈ visited_urls (self s)) (result_urls (self s))
  ∧ (∀ u, u ∈ visited_urls (self s) → u ∈ (created s).*1).

(** Number of units of the round that are not complete. *)
Definition pending (ts : list task) : nat :=
  length (filter (λ t, completed t = false) ts).

(** Termination of a crawl is measured by what is left to do. *)
#[global] Instance status_eq_dec : EqDecision status.
Proof. solve_decision. Defined.









End Predicates.

(** * Properties *)

(** ** Facts about the string methods *)

#[local] Arguments String.eqb : simpl never.

Lemma append_nil_l (s : string) : "" +:+ s = s.
Proof. reflexivity. Qed.

Lemma append_cons (c : ascii) (s1 s2 : string) :
  String c s1 +:+ s2 = String c (s1 +:+ s2).
Proof. reflexivity. Qed.

Lemma endswith_spec (s suffix : string) :
  Str.endswith s suffix = true ↔ ∃ p, s = p +:+ suffix.
Proof.
  induction s as [|c s IH]; simpl.
  - destruct (String.eqb_spec "" suffix) as [<-|Hne].
    + split; [intros _; by exists ""|done].
    + split; [done|]. intros [p Hp].
      destruct p; rewrite ?append_nil_l, ?append_cons in Hp; congruence.
  - destruct (String.eqb_spec (String c s) suffix) as [<-|Hne].
    + split; [intros _; by exists ""|done].
    + rewrite IH. split.
      * intros [p ->]. by exists (String c p).
      * intros [[|c' p] Hp]; rewrite ?append_nil_l, ?append_cons in Hp;
          [congruence|].
        injection Hp as -> ->. by exists p.
Qed.

Lemma endswith_any_spec (s : string) (suffixes : list string) :
  Str.endswith_any s suffixes = true
  ↔ ∃ suffix p, suffix ∈ suffixes ∧ s = p +:+ suffix.
Proof.
  unfold Str.endswith_any. rewrite existsb_exists. split.
  - intros (x & Hin & Hx). apply endswith_spec in Hx as [p ->].
    exists x, p. by rewrite list_elem_of_In.
  - intros (x & p & Hin & ->). exists x. rewrite <- list_elem_of_In.
    split; [done|]. apply endswith_spec. by exists p.
Qed.

Lemma is_valid_url_spec (url : string) :
  is_valid_url url = true
  ↔ ¬ ∃ ext p, ext ∈ irrelevant_exts ∧ Str.lower url = p +:+ ext.
Proof.
  unfold is_valid_url.
  rewrite negb_true_iff, <- not_true_iff_false.
  by rewrite endswith_any_spec.
Qed.

(** C10. [is_valid_url] accepts a URL string exactly when the whole
    lower-cased string (query string included) does not end with a listed
    extension; so a URL whose query ends in [.jpg] is rejected, and a URL
    whose path ends in [.jpg] but which carries a query is accepted. *)
Theorem is_valid_url_whole_string :
  (∀ url, is_valid_url url = true
          ↔ ¬ ∃ ext p, ext ∈ irrelevant_exts ∧ Str.lower url = p +:+ ext)
  ∧ is_valid_url "https://example.test/view?img=x.jpg" = false
  ∧ is_valid_url "https://example.test/a.jpg?x=1" = true.
Proof.
  split; [apply is_valid_url_spec|split; reflexivity].
Qed.

(** ** The fetcher *)

Lemma strip_empty : Str.strip "" = "".
Proof. reflexivity. Qed.

Lemma fetch_some (r : get_outcome) (html : string) :
  fetch r = Ok (Some html)
  ↔ r = GetResponse 200 (Ok html)
    ∧ 100 < Z.of_nat (String.length (Str.strip html)).
Proof.
  unfold fetch, try_catch. destruct r as [|status [text|]]; simpl.
  - split; [done|]. by intros [? _].
  - destruct (Z.eqb_spec status 200) as [->|Hne]; simpl.
    + destruct (Str.truthy text) eqn:Htruthy; simpl.
      * destruct (Z.ltb_spec 100 (Z.of_nat (String.length (Str.strip text))));
          (split; [intros [= <-]|intros [[= <-] ?]]); try done; lia.
      * split; [done|]. intros [[= <-] Hlen].
        destruct text; [|done]. rewrite strip_empty in Hlen. simpl in Hlen. lia.
    + split; [done|]. intros [[= ? ?] _]. done.
  - destruct (status =? 200); simpl; (split; [done|]); by intros [? _].
Qed.

Lemma truthy_content (r : get_outcome) (html : string) :
  fetch r = Ok (Some html) → Str.truthy html = true.
Proof.
  intros Hfetch. apply fetch_some in Hfetch as [_ Hlen].
  destruct html; [|done]. rewrite strip_empty in Hlen. simpl in Hlen. lia.
Qed.


(** C7. [fetch] returns normally whatever the request does; it returns the
    page exactly when the status is 200, the body could be read and its
    stripped length exceeds 100; for a raised request, another status, an
    unreadable body or a stripped length of at most 100 it returns [None]. *)
Theorem fetch_never_raises (r : get_outcome) :
  (∃ o, fetch r = Ok o)
  ∧ (∀ html, fetch r = Ok (Some html)
       ↔ r = GetResponse 200 (Ok html)
         ∧ 100 < Z.of_nat (String.length (Str.strip html)))
  ∧ (fetch GetRaised = Ok None)
  ∧ (∀ status text, status ≠ 200 → fetch (GetResponse status text) = Ok None)
  ∧ (∀ status, fetch (GetResponse status Raise) = Ok None)
  ∧ (∀ status html, Z.of_nat (String.length (Str.strip html)) ≤ 100 →
       fetch (GetResponse status (Ok html)) = Ok None).
Proof.
  assert (Hnone : ∀ r', (∀ html, fetch r' ≠ Ok (Some html)) →
                        fetch r' = Ok None).
  { intros r' Hno. unfold fetch, try_catch in *.
    destruct r' as [|status [text|]]; simpl in *;
      [done| |by destruct (status =? 200)].
    destruct (status =? 200); [|done]. simpl in *.
    destruct (_ && _); [|done]. by destruct (Hno text). }
  split; [|split; [apply fetch_some|repeat split]].
  - unfold fetch, try_catch. destruct r as [|status [text|]]; simpl; eauto.
    + destruct (status =? 200); simpl; eauto. destruct (_ && _); eauto.
    + destruct (status =? 200); simpl; eauto.
  - intros status text Hne. apply Hnone. intros html Hsome.
    apply fetch_some in Hsome as [[= ? ?] _]. done.
  - intros status. apply Hnone. intros html Hsome.
    by apply fetch_some in Hsome as [[= ? ?] _].
  - intros status html Hlen. apply Hnone. intros html' Hsome.
    apply fetch_some in Hsome as [[= ? <-] ?]. lia.
Qed.

(** ** The link extractor *)

Section Links.
Context `{!Library}.

Lemma extracted_cons c base_url href hrefs u :
  extracted c base_url hrefs u → extracted c base_url (href :: hrefs) u.
Proof.
  intros (h & j & Hin & Hrest). exists h, j. split; [by right|done].
Qed.

Lemma parse_links_loop_spec c base_url hrefs links out :
  parse_links_loop c base_url hrefs links = Ok out →
  ∀ u, u ∈ out → u ∈ links ∨ extracted c base_url hrefs u.
Proof.
  revert links. induction hrefs as [|href hrefs IH]; intros links Hloop u Hu.
  - injection Hloop as <-. by left.
  - cbn [parse_links_loop] in Hloop.
    destruct (urljoin base_url (Str.strip href)) as [joined|] eqn:Hjoin;
      [|done].
    cbn [mbind result_bind] in Hloop.
    set (full_url := Str.rstrip_slash (Str.before_hash joined)) in *.
    destruct (is_internal c full_url) as [internal|] eqn:Hint; [|done].
    cbn [mbind result_bind] in Hloop.
    destruct (internal && is_valid_url full_url && can_fetch c full_url)
      eqn:Hok.
    + destruct (IH _ Hloop u Hu) as [Hin|Hex].
      * apply elem_of_app in Hin as [Hin|Hnew]; [by left|].
        apply list_elem_of_singleton in Hnew as ->.
        apply andb_prop in Hok as [Hok Hcan].
        apply andb_prop in Hok as [-> Hvalid].
        right. exists href, joined. repeat split; try done. by left.
      * right. by apply extracted_cons.
    + destruct (IH _ Hloop u Hu) as [Hin|Hex]; [by left|].
      right. by apply extracted_cons.
Qed.

Lemma parse_links_unfold c html page links :
  parse_links c html page = Ok links →
  ∃ hrefs, find_all_a_href html = Ok hrefs
           ∧ parse_links_loop c page hrefs [] = Ok links.
Proof.
  unfold parse_links. destruct (find_all_a_href html) as [hrefs|]; [|done].
  intros Hloop. by exists hrefs.
Qed.

Lemma parse_links_extracted c html page links :
  parse_links c html page = Ok links →
  ∀ u, u ∈ links →
    ∃ hrefs, find_all_a_href html = Ok hrefs ∧ extracted c page hrefs u.
Proof.
  intros Hparse u Hu.
  apply parse_links_unfold in Hparse as (hrefs & Hhrefs & Hloop).
  exists hrefs. split; [done|].
  destruct (parse_links_loop_spec _ _ _ _ _ Hloop u Hu) as [Hin|Hex];
    [by apply elem_of_nil in Hin|done].
Qed.

Lemma parse_links_loop_result_urls c results page hrefs links :
  parse_links_loop (set_result_urls results c) page hrefs links
  = parse_links_loop c page hrefs links.
Proof.
  revert links. induction hrefs as [|href hrefs IH]; intros links; [done|].
  cbn [parse_links_loop].
  destruct (urljoin page (Str.strip href)) as [joined|]; [|done].
  cbn [mbind result_bind].
  change (is_internal (set_result_urls results c))
    with (is_internal c).
  change (can_fetch (set_result_urls results c)) with (can_fetch c).
  destruct (is_internal c _) as [internal|]; [|done].
  cbn [mbind result_bind]. destruct (_ && _); apply IH.
Qed.

Lemma parse_links_result_urls c results html page :
  parse_links (set_result_urls results c) html page = parse_links c html page.
Proof.
  unfold parse_links. destruct (find_all_a_href html) as [hrefs|]; [|done].
  apply parse_links_loop_result_urls.
Qed.

(** C8 (as amended). Every URL returned by [parse_links] is an anchor's
    (whitespace-stripped) [href] joined to the page URL, cut at the first
    [#] and stripped of all trailing slashes; it is same-domain; the whole
    lower-cased URL string does not end in a denylisted extension; and the
    robots gate permits it. *)
Theorem parse_links_sound (c : crawler) (html page : string)
    (links : list string) :
  parse_links c html page = Ok links →
  ∀ u, u ∈ links →
    (∃ hrefs href joined,
        find_all_a_href html = Ok hrefs
        ∧ href ∈ hrefs
        ∧ urljoin page (Str.strip href) = Ok joined
        ∧ u = Str.rstrip_slash (Str.before_hash joined))
    ∧ (∃ parsed, urlparse u = Ok parsed
                 ∧ (netloc parsed = "" ∨ netloc parsed = base_domain c))
    ∧ (¬ ∃ ext p, ext ∈ irrelevant_exts ∧ Str.lower u = p +:+ ext)
    ∧ can_fetch c u = true.
Proof.
  intros Hparse u Hu.
  destruct (parse_links_extracted _ _ _ _ Hparse u Hu)
    as (anchors & Hanchors & Hex).
  destruct Hex as (href & joined & Hin & Hjoin & -> & Hint & Hvalid & Hcan).
  repeat split; try done.
  - by exists anchors, href, joined.
  - unfold is_internal in Hint.
    destruct (urlparse _) as [parsed|]; [|done]. simpl in Hint.
    exists parsed. split; [done|]. injection Hint as Hint.
    apply orb_prop in Hint as [Heq|Heq]; apply String.eqb_eq in Heq; auto.
  - by apply is_valid_url_spec.
Qed.

End Links.

(** ** The scheduler *)

Section Scheduler.
Context `{!Library}.

Lemma run_app (s : state) (events1 events2 : list event) :
  run s (events1 ++ events2) = run (run s events1) events2.
Proof. apply foldl_app. Qed.

Lemma run_cons (s : state) (e : event) (events : list event) :
  run s (e :: events) = run (step s e) events.
Proof. reflexivity. Qed.

Lemma put_put entries1 entries2 c :
  put entries2 (put entries1 c) = put (entries1 ++ entries2) c.
Proof. unfold put, set_urls_to_visit. simpl. by rewrite app_assoc. Qed.

Lemma put_nil c : put [] c = c.
Proof.
  destruct c. unfold put, set_urls_to_visit. simpl. by rewrite app_nil_r.
Qed.

Lemma enqueue_links_put depth links entries c :
  enqueue_links depth links (put entries c)
  = put (entries ++ ((λ link, (link, depth + 1)) <$> filter (unvisited c) links))
      c.
Proof.
  revert entries. induction links as [|link links IH]; intros entries.
  - by rewrite app_nil_r.
  - unfold enqueue_links in *. cbn [foldl]. rewrite filter_cons.
    change (decide (unvisited (put entries c) link))
      with (decide (unvisited c link)).
    destruct (decide (unvisited c link)).
    + rewrite put_put, IH, fmap_cons, <- app_assoc. done.
    + apply IH.
Qed.

Lemma enqueue_links_eq depth links c :
  enqueue_links depth links c
  = put ((λ link, (link, depth + 1)) <$> filter (unvisited c) links) c.
Proof. by rewrite <- (put_nil c) at 1; rewrite enqueue_links_put. Qed.

Lemma seed_loop_put urls entries c :
  foldl (λ c url, put [(url, 0)] c) (put entries c) urls
  = put (entries ++ ((λ url, (url, 0)) <$> urls)) c.
Proof.
  revert entries. induction urls as [|url urls IH]; intros entries.
  - by rewrite app_nil_r.
  - cbn [foldl]. rewrite put_put, IH, fmap_cons, <- app_assoc. done.
Qed.

Lemma seed_loop_eq urls c :
  foldl (λ c url, put [(url, 0)] c) c urls = put ((λ url, (url, 0)) <$> urls) c.
Proof. by rewrite <- (put_nil c) at 1; rewrite seed_loop_put. Qed.

Lemma dequeue_eq c n queue fresh :
  dequeue c n queue fresh
  = (drop n queue, fresh ++ filter (admitted c) (take n queue)).
Proof.
  revert queue fresh. induction n as [|n IH]; intros queue fresh.
  - destruct queue; simpl; by rewrite app_nil_r.
  - destruct queue as [|entry queue]; simpl; [by rewrite app_nil_r|].
    rewrite IH, filter_cons. destruct (decide (admitted c entry)); [|done].
    by rewrite <- app_assoc.
Qed.

Lemma loop_iteration_cases (s : state) :
  (urls_to_visit (self s) = []
   ∧ loop_iteration s
     = {| self := self s; tasks := []; phase := Returned;
          created := created s |})
  ∨ (urls_to_visit (self s) ≠ []
     ∧ loop_iteration s
       = {| self := set_urls_to_visit
                      (drop (batch_size (self s)) (urls_to_visit (self s)))
                      (self s);
            tasks := new_task <$> filter (admitted (self s)) (batch (self s));
            phase := Looping;
            created := created s
                       ++ filter (admitted (self s)) (batch (self s)) |}).
Proof.
  unfold loop_iteration. destruct (urls_to_visit (self s)) eqn:Hq; [by left|].
  right. split; [done|]. rewrite <- Hq. by rewrite dequeue_eq.
Qed.

(** What the second half of [handle_url] can change. *)
Lemma handle_url_resume_shape url depth r c c' out :
  handle_url_resume url depth r c = (c', out) →
  base_url c' = base_url c ∧ base_domain c' = base_domain c
  ∧ max_tasks c' = max_tasks c ∧ max_depth c' = max_depth c
  ∧ visited_urls c' = visited_urls c
  ∧ (result_urls c' = result_urls c ∨ result_urls c' = result_urls c ++ [url])
  ∧ ∃ links,
      urls_to_visit c' = urls_to_visit c ++ ((λ l, (l, depth + 1)) <$> links)
      ∧ (links = [] ∨ depth < max_depth c)
      ∧ Forall (λ l, (l ∉ visited_urls c) ∧ is_internal c l = Ok true) links.
Proof.
  unfold handle_url_resume. intros Hres.
  assert (Hsame : ∀ c1 o, (c1, o) = (c', out) →
            urls_to_visit c1 = urls_to_visit c →
            ∃ links, urls_to_visit c' = urls_to_visit c
                       ++ ((λ l, (l, depth + 1)) <$> links)
              ∧ (links = [] ∨ depth < max_depth c)
              ∧ Forall (λ l, (l ∉ visited_urls c) ∧ is_internal c l = Ok true)
                  links).
  { intros c1 o [= <- _] Hq. exists []. rewrite Hq, app_nil_r. auto. }
  destruct (fetch r) as [[html|]|].
  2,3: injection Hres as <- <-; repeat split; auto; by eapply Hsame.
  destruct (Str.truthy html).
  2: injection Hres as <- <-; repeat split; auto; by eapply Hsame.
  cbn [max_depth set_result_urls] in Hres.
  destruct (Z.ltb_spec depth (max_depth c)) as [Hlt|Hge].
  2: injection Hres as <- <-; repeat split; auto; by eapply Hsame.
  destruct (parse_links _ html url) as [links|] eqn:Hlinks.
  2: injection Hres as <- <-; repeat split; auto; by eapply Hsame.
  rewrite enqueue_links_eq in Hres.
  injection Hres as <- <-. repeat split; auto.
  eexists. split; [reflexivity|]. split; [by right|].
  apply Forall_forall. intros l Hl.
  apply list_elem_of_filter in Hl as [Hunvisited Hl].
  rewrite set_iter_elem in Hl. split; [done|].
  destruct (parse_links_extracted _ _ _ _ Hlinks l Hl)
    as (anchors & Hanchors & Hex).
  by destruct Hex as (? & ? & _ & _ & _ & Hint & _).
Qed.

Lemma fresh_admitted (c : crawler) (e : string * Z) :
  e ∈ filter (admitted c) (batch c) →
  e ∈ urls_to_visit c ∧ (e.1 ∉ visited_urls c) ∧ e.2 ≤ max_depth c.
Proof.
  intros He. apply list_elem_of_filter in He as [[Hv Hd] He].
  split; [|done]. unfold batch in He. by eapply subseteq_take.
Qed.

(** *** Depth *)

Lemma depth_inv_step md s e : depth_inv md s → depth_inv md (step s e).
Proof.
  intros (Hmd & Hcreated & Htasks & Hqueue). destruct e as [|i|i r]; simpl.
  - destruct (phase s); try done. destruct (forallb _ _); [|done].
    destruct (loop_iteration_cases s) as [[_ ->]|[_ ->]].
    { repeat split; simpl; auto. }
    assert (Hfresh : Forall (λ e, 0 ≤ e.2 ≤ md)
                       (filter (admitted (self s)) (batch (self s)))).
    { apply Forall_forall. intros e He.
      apply fresh_admitted in He as (Hin & _ & Hle).
      rewrite Forall_forall in Hqueue. specialize (Hqueue e Hin). lia. }
    repeat split; simpl; auto.
    + by apply Forall_app.
    + by apply Forall_fmap.
    + by apply Forall_drop.
  - destruct (tasks s !! i) as [t|] eqn:Hi; [|done].
    destruct (t_status t); try done.
    repeat split; simpl; auto.
    apply Forall_insert; [done|]. simpl.
    rewrite Forall_forall in Htasks. apply Htasks.
    by eapply list_elem_of_lookup_2.
  - destruct (tasks s !! i) as [t|] eqn:Hi; [|done].
    destruct (t_status t); try done.
    assert (Ht : 0 ≤ t_depth t ≤ md).
    { rewrite Forall_forall in Htasks. apply Htasks.
      by eapply list_elem_of_lookup_2. }
    destruct (handle_url_resume _ _ _ _) as [c' out] eqn:Hres.
    apply handle_url_resume_shape in Hres
      as (_ & _ & _ & Hmd' & _ & _ & links & Hq & Hlinks & _).
    repeat split; simpl; auto; [congruence| |].
    + by apply Forall_insert.
    + rewrite Hq. apply Forall_app. split; [done|].
      apply Forall_fmap, Forall_forall. intros l Hl. simpl.
      destruct Hlinks as [->|Hlt]; [by apply elem_of_nil in Hl|]. lia.
Qed.

Lemma depth_inv_run md s events : depth_inv md s → depth_inv md (run s events).
Proof.
  revert s. induction events as [|e events IH]; intros s Hinv; [done|].
  rewrite run_cons. by apply IH, depth_inv_step.
Qed.

(** *** Domain scoping *)

Lemma internal_inv_step c0 s e : internal_inv c0 s → internal_inv c0 (step s e).
Proof.
  intros (Hdom & Hqueue & Htasks & Hresults).
  destruct e as [|i|i r]; simpl.
  - destruct (phase s); try done. destruct (forallb _ _); [|done].
    destruct (loop_iteration_cases s) as [[_ ->]|[_ ->]].
    { repeat split; simpl; auto. }
    repeat split; simpl; auto.
    + by apply Forall_drop.
    + apply Forall_fmap, Forall_forall. intros e He. simpl.
      apply fresh_admitted in He as (Hin & _).
      rewrite Forall_forall in Hqueue. by apply Hqueue.
  - destruct (tasks s !! i) as [t|] eqn:Hi; [|done].
    destruct (t_status t); try done.
    repeat split; simpl; auto.
    apply Forall_insert; [done|]. simpl.
    rewrite Forall_forall in Htasks. apply Htasks.
    by eapply list_elem_of_lookup_2.
  - destruct (tasks s !! i) as [t|] eqn:Hi; [|done].
    destruct (t_status t); try done.
    assert (Ht : is_internal c0 (t_url t) = Ok true).
    { rewrite Forall_forall in Htasks. apply Htasks.
      by eapply list_elem_of_lookup_2. }
    destruct (handle_url_resume _ _ _ _) as [c' out] eqn:Hres.
    apply handle_url_resume_shape in Hres
      as (_ & Hdom' & _ & _ & _ & Hres & links & Hq & _ & Hlinks).
    repeat split; simpl; auto; [congruence| | |].
    + rewrite Hq. apply Forall_app. split; [done|].
      apply Forall_fmap. eapply Forall_impl; [exact Hlinks|].
      intros l [_ Hl]. simpl. unfold is_internal in *. by rewrite <- Hdom.
    + by apply Forall_insert.
    + destruct Hres as [->| ->]; [done|].
      apply Forall_app. split; [done|]. by apply Forall_singleton.
Qed.

Lemma internal_inv_run c0 s events :
  internal_inv c0 s → internal_inv c0 (run s events).
Proof.
  revert s. induction events as [|e events IH]; intros s Hinv; [done|].
  rewrite run_cons. by apply IH, internal_inv_step.
Qed.

(** *** The visited set and the units created *)

Lemma step_visited (s : state) (e : event) :
  visited_urls (self s) ⊆ visited_urls (self (step s e))
  ∧ ∃ new, created (step s e) = created s ++ new
           ∧ ∀ u, u ∈ visited_urls (self s) → u ∉ new.*1.
Proof.
  assert (Hnone : ∀ v : gset string,
            ∃ new : list (string * Z), created s = created s ++ new
              ∧ ∀ u, u ∈ v → u ∉ new.*1).
  { intros v. exists []. rewrite app_nil_r. split; [done|].
    intros u _. apply not_elem_of_nil. }
  destruct e as [|i|i r]; simpl.
  - destruct (phase s); try done. destruct (forallb _ _); [|done].
    destruct (loop_iteration_cases s) as [[_ ->]|[_ ->]]; [done|].
    simpl. split; [done|].
    eexists. split; [reflexivity|]. intros u Hu Hin.
    apply list_elem_of_fmap in Hin as (e & -> & He).
    by apply fresh_admitted in He as (_ & Hnew & _).
  - destruct (tasks s !! i) as [t|]; [|done].
    destruct (t_status t); try done. simpl. split; [set_solver|done].
  - destruct (tasks s !! i) as [t|]; [|done].
    destruct (t_status t); try done.
    destruct (handle_url_resume _ _ _ _) as [c' out] eqn:Hres.
    apply handle_url_resume_shape in Hres as (_ & _ & _ & _ & Hv & _).
    simpl. rewrite Hv. done.
Qed.

Lemma run_visited (s : state) (events : list event) :
  visited_urls (self s) ⊆ visited_urls (self (run s events))
  ∧ ∃ new, created (run s events) = created s ++ new
           ∧ ∀ u, u ∈ visited_urls (self s) → u ∉ new.*1.
Proof.
  revert s. induction events as [|e events IH]; intros s.
  - split; [done|]. exists []. rewrite app_nil_r. split; [done|].
    intros u _. apply not_elem_of_nil.
  - rewrite run_cons.
    destruct (step_visited s e) as (Hsub1 & new1 & Hcreated1 & Hnew1).
    destruct (IH (step s e)) as (Hsub2 & new2 & Hcreated2 & Hnew2).
    split; [by etrans|].
    exists (new1 ++ new2). rewrite Hcreated2, Hcreated1, app_assoc.
    split; [done|]. intros u Hu. rewrite fmap_app, not_elem_of_app.
    split; [by apply Hnew1|]. apply Hnew2. by apply Hsub1.
Qed.

(** C5. The visited set never loses a URL: after any further events it
    contains what it contained before; and the units created by those
    further events are for URLs that were not yet in the visited set, so
    no new unit is ever created for a URL once it is a member. *)
Theorem visited_grows_and_blocks_dispatch (s0 : state)
    (events1 events2 : list event) :
  let s1 := run s0 events1 in
  let s2 := run s0 (events1 ++ events2) in
  visited_urls (self s1) ⊆ visited_urls (self s2)
  ∧ ∃ new, created s2 = created s1 ++ new
           ∧ ∀ u, u ∈ visited_urls (self s1) → u ∉ new.*1.
Proof. simpl. rewrite run_app. apply run_visited. Qed.

(** *** Leaving the loop *)

(** C4 (as amended). A step takes the crawl to its terminal state exactly
    when it is an iteration of the main loop that finds the queue empty
    (all units of the previous round being complete); [run()] then hands
    back the result list as it stands. *)
Theorem loop_exit_iff_queue_empty (s : state) (e : event) :
  (phase s ≠ Returned ∧ phase (step s e) = Returned
   ↔ e = Main ∧ phase s = Looping
     ∧ forallb completed (tasks s) = true
     ∧ urls_to_visit (self s) = [])
  ∧ (phase s ≠ Returned → phase (step s e) = Returned →
     returned (step s e) = Some (result_urls (self s))).
Proof.
  destruct e as [|i|i r]; simpl.
  - destruct (phase s) eqn:Hphase.
    + destruct (forallb completed (tasks s)) eqn:Hall.
      * unfold returned.
        destruct (loop_iteration_cases s) as [[Hq ->]|[Hq ->]]; simpl.
        -- by repeat split.
        -- split; [|done]. split; [by intros [_ ?]|by intros (_ & _ & _ & ?)].
      * rewrite Hphase. split; [|done].
        split; [by intros [_ ?]|by intros (_ & _ & ? & _)].
    + rewrite Hphase. split; [|done].
      split; [by intros [? _]|by intros (_ & ? & _)].
    + rewrite Hphase. split; [|done].
      split; [by intros [_ ?]|by intros (_ & ? & _)].
  - assert (Hsame : phase (match tasks s !! i with
             | Some t => match t_status t with
                         | Created =>
                             {| self := handle_url_start (t_url t) (self s);
                                tasks := <[i := set_status Awaiting t]> (tasks s);
                                phase := phase s; created := created s |}
                         | _ => s
                         end
             | None => s
             end) = phase s).
    { destruct (tasks s !! i) as [t|]; [|done]. by destruct (t_status t). }
    rewrite Hsame. split; [|done].
    split; [by intros [? ?]|by intros (? & _)].
  - destruct (tasks s !! i) as [t|].
    2: { split; [|done]. split; [by intros [? ?]|by intros (? & _)]. }
    destruct (t_status t).
    1,3: split; [|done]; (split; [by intros [? ?]|by intros (? & _)]).
    destruct (handle_url_resume _ _ _ _) as [c' [[]|]]; simpl.
    + split; [|done]. split; [by intros [? ?]|by intros (? & _)].
    + split; [|done]. split; [by intros [? ?]|by intros (? & _)].
Qed.

(** *** From construction to the first round *)

Lemma init_shape base mt md c :
  init base mt md = Ok c →
  ∃ parsed_base,
    urlparse (with_slash base) = Ok parsed_base
    ∧ 0 ≤ mt
    ∧ c = {| base_url := with_slash base; base_domain := netloc parsed_base;
             max_tasks := mt; max_depth := md;
             urls_to_visit := []; visited_urls := ∅; result_urls := [];
             robot_parser := λ _, Ok false;
             robots_loaded := false; sitemap_loaded := false |}.
Proof.
  unfold init. destruct (urlparse _) as [parsed_base|]; [|done]. simpl.
  destruct (Z.ltb_spec mt 0); [done|]. intros [= <-]. by exists parsed_base.
Qed.

Lemma load_robots_same w c : same_crawl_data c (load_robots w c).
Proof.
  unfold load_robots, try_except.
  destruct (urljoin _ _) as [robots_url|]; simpl; [|by repeat split].
  destruct (robots_read w robots_url); simpl; by repeat split.
Qed.

Lemma load_robots_sitemap_loaded w c :
  sitemap_loaded (load_robots w c) = sitemap_loaded c.
Proof.
  unfold load_robots, try_except.
  destruct (urljoin _ _) as [robots_url|]; simpl; [|done].
  by destruct (robots_read w robots_url).
Qed.

Lemma parse_sitemap_loop_internal c locs urls out finished :
  parse_sitemap_loop c locs urls = (out, finished) →
  Forall (λ u, is_internal c u = Ok true) urls →
  Forall (λ u, is_internal c u = Ok true) out.
Proof.
  revert urls. induction locs as [|[text|] locs IH]; intros urls Hloop Hurls.
  - by injection Hloop as <- _.
  - cbn [parse_sitemap_loop] in Hloop.
    destruct (is_internal c (Str.strip text)) as [internal|] eqn:Hint.
    2: by injection Hloop as <- _.
    apply IH in Hloop; [done|].
    destruct internal; simpl; [|done].
    destruct (is_valid_url _); [|done].
    apply Forall_app. split; [done|]. by apply Forall_singleton.
  - by injection Hloop as <- _.
Qed.

Lemma parse_sitemap_shape c r urls c2 :
  parse_sitemap c r = (urls, c2) →
  same_crawl_data c c2
  ∧ Forall (λ u, is_internal c u = Ok true) urls
  ∧ (sitemap_loaded c2 = sitemap_loaded c ∨ sitemap_loaded c2 = true).
Proof.
  unfold parse_sitemap. intros Hparse.
  assert (Hnone : ([] : list string, c) = (urls, c2) →
            same_crawl_data c c2
            ∧ Forall (λ u, is_internal c u = Ok true) urls
            ∧ (sitemap_loaded c2 = sitemap_loaded c ∨ sitemap_loaded c2 = true)).
  { intros [= <- <-]. repeat split; auto. }
  destruct r as [|status [text|]]; [auto| |by destruct (status =? 200); auto].
  destruct (status =? 200); [|auto].
  destruct (findall_loc text) as [locs|]; [|auto].
  destruct (parse_sitemap_loop c locs []) as [urls' finished] eqn:Hloop.
  injection Hparse as <- <-.
  apply parse_sitemap_loop_internal in Hloop; [|done].
  destruct finished; repeat split; auto.
Qed.

Lemma crawl_begin_shape w c c' :
  crawl_begin w c = Ok c' →
  ∃ sitemap_url urls c2,
    urljoin (base_url c) "/sitemap.xml" = Ok sitemap_url
    ∧ parse_sitemap (load_robots w c) (sitemap_get w sitemap_url) = (urls, c2)
    ∧ c' = seed urls c2.
Proof.
  unfold crawl_begin.
  destruct (load_robots_same w c) as (-> & _).
  destruct (urljoin _ _) as [sitemap_url|]; [|done]. simpl.
  destruct (parse_sitemap _ _) as [urls c2] eqn:Hparse.
  intros [= <-]. by exists sitemap_url, urls, c2.
Qed.

Lemma start_shape base mt md w s0 :
  start base mt md w = Ok s0 →
  ∃ c sitemap_url urls c2,
    init base mt md = Ok c
    ∧ urljoin (base_url c) "/sitemap.xml" = Ok sitemap_url
    ∧ parse_sitemap (load_robots w c) (sitemap_get w sitemap_url) = (urls, c2)
    ∧ s0 = {| self := seed urls c2; tasks := []; phase := Looping;
              created := [] |}.
Proof.
  unfold start. destruct (init base mt md) as [c|] eqn:Hinit; [|done]. simpl.
  destruct (crawl_begin w c) as [c'|] eqn:Hbegin; [|done]. simpl.
  intros [= <-].
  apply crawl_begin_shape in Hbegin as (sitemap_url & urls & c2 & ? & ? & ->).
  by exists c, sitemap_url, urls, c2.
Qed.

Lemma seed_shape urls c :
  same_crawl_data c (set_urls_to_visit (urls_to_visit c) (seed urls c))
  ∧ ((sitemap_loaded c = true ∧ urls ≠ []
      ∧ urls_to_visit (seed urls c)
        = urls_to_visit c ++ ((λ url, (url, 0)) <$> set_iter urls))
     ∨ ((sitemap_loaded c = false ∨ urls = [])
        ∧ urls_to_visit (seed urls c) = urls_to_visit c ++ [(base_url c, 0)])).
Proof.
  unfold seed. rewrite seed_loop_eq. destruct (sitemap_loaded c); simpl.
  - case_bool_decide as Hurls; simpl.
    + split; [by repeat split|]. right. auto.
    + split; [by repeat split|]. left. auto.
  - split; [by repeat split|]. right. auto.
Qed.

Lemma start_depth_inv base mt md w s0 :
  start base mt md w = Ok s0 → depth_inv md s0.
Proof.
  intros Hstart.
  apply start_shape in Hstart as (c & url & urls & c2 & Hinit & _ & Hparse & ->).
  apply init_shape in Hinit as (parsed_base & _ & _ & ->).
  apply parse_sitemap_shape in Hparse as ((_ & _ & _ & Hmd & Hq & _) & _).
  destruct (load_robots_same w
    {| base_url := with_slash base; base_domain := netloc parsed_base;
       max_tasks := mt; max_depth := md; urls_to_visit := [];
       visited_urls := ∅; result_urls := [];
       robot_parser := λ _, Ok false;
       robots_loaded := false; sitemap_loaded := false |})
    as (_ & _ & _ & Hmd0 & Hq0 & _).
  rewrite Hmd0 in Hmd. rewrite Hq0 in Hq. simpl in Hmd, Hq.
  destruct (seed_shape urls c2) as ((_ & _ & _ & Hmd2 & _) & Hseed).
  simpl in Hmd2. unfold depth_inv. simpl.
  split; [congruence|]. split; [done|]. split; [done|].
  destruct Hseed as [(_ & _ & ->)|(_ & ->)]; rewrite Hq; simpl.
  - apply Forall_fmap, Forall_forall. intros u _. simpl. lia.
  - apply Forall_singleton. simpl. lia.
Qed.

Lemma is_internal_base_domain c c' u :
  base_domain c' = base_domain c → is_internal c' u = is_internal c u.
Proof. unfold is_internal. by intros ->. Qed.

Lemma start_internal_inv base mt md w s0 :
  start base mt md w = Ok s0 →
  ∃ c, init base mt md = Ok c ∧ internal_inv c s0.
Proof.
  intros Hstart.
  apply start_shape in Hstart as (c & url & urls & c2 & Hinit & _ & Hparse & ->).
  exists c. split; [done|].
  apply init_shape in Hinit as (parsed_base & Hbase & _ & ->).
  apply parse_sitemap_shape in Hparse
    as ((Hurl & Hdom & _ & _ & Hq & _ & Hres) & Hurls & _).
  destruct (load_robots_same w
    {| base_url := with_slash base; base_domain := netloc parsed_base;
       max_tasks := mt; max_depth := md; urls_to_visit := [];
       visited_urls := ∅; result_urls := [];
       robot_parser := λ _, Ok false;
       robots_loaded := false; sitemap_loaded := false |})
    as (Hurl0 & Hdom0 & _ & _ & Hq0 & _ & Hres0).
  rewrite Hurl0 in Hurl. rewrite Hdom0 in Hdom. rewrite Hq0 in Hq.
  rewrite Hres0 in Hres. simpl in Hurl, Hdom, Hq, Hres.
  destruct (seed_shape urls c2) as ((_ & Hdom2 & _ & _ & _ & _ & Hres2) & Hseed).
  simpl in Hdom2, Hres2. unfold internal_inv. simpl.
  split; [congruence|]. split; [|split; [done|by rewrite Hres2, Hres]].
  destruct Hseed as [(_ & _ & ->)|(_ & ->)]; rewrite Hq; simpl.
  - apply Forall_fmap, Forall_forall. intros u Hu. simpl.
    rewrite set_iter_elem in Hu. rewrite Forall_forall in Hurls.
    rewrite <- (Hurls u Hu). by apply is_internal_base_domain.
  - apply Forall_singleton. simpl. rewrite Hurl. unfold is_internal.
    rewrite Hbase. simpl. by rewrite String.eqb_refl, orb_true_r.
Qed.

(** C1. In a crawl with depth limit [md], every unit of work that the
    scheduler ever creates carries a depth between 0 and [md]; and every
    queue entry has depth 0 (a seed) or a depth between 1 and [md] (a link
    of a page whose depth was below [md]). *)
Theorem fetched_depth_bounded base mt md w s0 events :
  start base mt md w = Ok s0 →
  let s := run s0 events in
  Forall (λ e, 0 ≤ e.2 ≤ md) (created s)
  ∧ Forall (λ t, 0 ≤ t_depth t ≤ md) (tasks s)
  ∧ Forall (λ e, e.2 = 0 ∨ 1 ≤ e.2 ≤ md) (urls_to_visit (self s)).
Proof.
  intros Hstart. apply start_depth_inv in Hstart.
  destruct (depth_inv_run md s0 events Hstart) as (_ & Hc & Ht & Hq).
  simpl. repeat split; try done.
  eapply Forall_impl; [exact Hq|]. intros e. simpl. lia.
Qed.

(** C6. Every URL of the result list, at any point of a crawl, parses to a
    network location that is empty or equal to that of the base URL. *)
Theorem results_same_domain base mt md w s0 events :
  start base mt md w = Ok s0 →
  ∃ parsed_base,
    urlparse (with_slash base) = Ok parsed_base
    ∧ ∀ u, u ∈ result_urls (self (run s0 events)) →
        ∃ parsed, urlparse u = Ok parsed
                  ∧ (netloc parsed = "" ∨ netloc parsed = netloc parsed_base).
Proof.
  intros Hstart. apply start_internal_inv in Hstart as (c & Hinit & Hinv).
  apply init_shape in Hinit as (parsed_base & Hbase & _ & ->).
  exists parsed_base. split; [done|]. intros u Hu.
  apply (internal_inv_run _ _ events) in Hinv as (_ & _ & _ & Hres).
  rewrite Forall_forall in Hres. specialize (Hres u Hu).
  unfold is_internal in Hres. destruct (urlparse u) as [parsed|]; [|done].
  exists parsed. split; [done|]. simpl in Hres. injection Hres as Hres.
  apply orb_prop in Hres as [Heq|Heq]; apply String.eqb_eq in Heq; auto.
Qed.

(** *** Seeding *)

Lemma start_unfold base mt md w c sitemap_url urls c2 :
  init base mt md = Ok c →
  urljoin (base_url c) "/sitemap.xml" = Ok sitemap_url →
  parse_sitemap (load_robots w c) (sitemap_get w sitemap_url) = (urls, c2) →
  start base mt md w
  = Ok {| self := seed urls c2; tasks := []; phase := Looping; created := [] |}
  ∧ urls_to_visit c2 = [] ∧ base_url c2 = with_slash base
  ∧ base_domain c2 = base_domain c.
Proof.
  intros Hinit Hjoin Hparse. unfold start, crawl_begin. rewrite Hinit. simpl.
  destruct (load_robots_same w c) as (Hurl1 & Hdom1 & _ & _ & Hq1 & _).
  rewrite Hurl1, Hjoin. simpl. rewrite Hparse. split; [done|].
  apply parse_sitemap_shape in Hparse as ((Hurl2 & Hdom2 & _ & _ & Hq2 & _) & _).
  apply init_shape in Hinit as (parsed_base & _ & _ & ->).
  simpl in *. repeat split; congruence.
Qed.

Lemma set_urls_to_visit_same c : set_urls_to_visit (urls_to_visit c) c = c.
Proof. by destruct c. Qed.

(** The state in which the loop is entered. *)
Lemma start_fresh base mt md w s0 :
  start base mt md w = Ok s0 →
  tasks s0 = [] ∧ created s0 = [] ∧ phase s0 = Looping
  ∧ visited_urls (self s0) = ∅ ∧ result_urls (self s0) = []
  ∧ max_tasks (self s0) = mt ∧ 0 ≤ mt ∧ max_depth (self s0) = md
  ∧ base_url (self s0) = with_slash base
  ∧ urls_to_visit (self s0) ≠ [].
Proof.
  intros Hstart.
  apply start_shape in Hstart as (c & url & urls & c2 & Hinit & _ & Hparse & ->).
  apply init_shape in Hinit as (parsed_base & _ & Hmt & ->).
  apply parse_sitemap_shape in Hparse
    as ((Hurl & _ & Htasks & Hmd & Hq & Hv & Hres) & _).
  destruct (load_robots_same w
    {| base_url := with_slash base; base_domain := netloc parsed_base;
       max_tasks := mt; max_depth := md; urls_to_visit := [];
       visited_urls := ∅; result_urls := [];
       robot_parser := λ _, Ok false;
       robots_loaded := false; sitemap_loaded := false |})
    as (Hurl0 & _ & Htasks0 & Hmd0 & Hq0 & Hv0 & Hres0).
  simpl in *.
  destruct (seed_shape urls c2)
    as ((Hurl2 & _ & Htasks2 & Hmd2 & _ & Hv2 & Hres2) & Hseed).
  simpl in *. repeat split; try congruence.
  destruct Hseed as [(_ & Hurls & ->)|(_ & ->)]; rewrite Hq, Hq0; simpl.
  - intros Hnil. apply fmap_nil_inv in Hnil. destruct urls as [|u urls]; [done|].
    assert (Hu : u ∈ set_iter (u :: urls)) by (apply set_iter_elem; by left).
    rewrite Hnil in Hu. by apply elem_of_nil in Hu.
  - done.
Qed.

(** C2 (as amended). If the sitemap bootstrap ran to its end (it set
    [sitemap_loaded]) and returned a non-empty set, the queue at the head
    of the loop holds each URL of that set once, at depth 0, and nothing
    else; so the base URL is in it only if the sitemap listed it. *)
Theorem sitemap_seeds_frontier base mt md w c sitemap_url urls c2 :
  init base mt md = Ok c →
  urljoin (base_url c) "/sitemap.xml" = Ok sitemap_url →
  parse_sitemap (load_robots w c) (sitemap_get w sitemap_url) = (urls, c2) →
  sitemap_loaded c2 = true →
  urls ≠ [] →
  ∃ s0, start base mt md w = Ok s0
    ∧ NoDup (urls_to_visit (self s0))
    ∧ (∀ e, e ∈ urls_to_visit (self s0) ↔ ∃ u, u ∈ urls ∧ e = (u, 0))
    ∧ ((base_url c, 0) ∈ urls_to_visit (self s0) → base_url c ∈ urls).
Proof.
  intros Hinit Hjoin Hparse Hloaded Hurls.
  destruct (start_unfold _ _ _ _ _ _ _ _ Hinit Hjoin Hparse)
    as (Hstart & Hq & _).
  eexists. split; [exact Hstart|]. simpl.
  destruct (seed_shape urls c2) as (_ & [(_ & _ & ->)|([Hno|Hno] & _)]);
    [|congruence..].
  rewrite Hq. simpl.
  assert (Hmem : ∀ e, e ∈ (λ url : string, (url, 0)) <$> set_iter urls
                      ↔ ∃ u, u ∈ urls ∧ e = (u, 0)).
  { intros e. rewrite list_elem_of_fmap. split.
    - intros (u & -> & Hu). exists u. by rewrite <- set_iter_elem.
    - intros (u & Hu & ->). exists u. by rewrite set_iter_elem. }
  split; [|split; [done|]].
  - apply NoDup_fmap_2; [|apply set_iter_NoDup]. by intros u1 u2 [= ->].
  - intros Hin. apply Hmem in Hin as (u & Hu & [= ->]). done.
Qed.

Lemma fallback_seed base mt md w c sitemap_url urls c2 :
  init base mt md = Ok c →
  urljoin (base_url c) "/sitemap.xml" = Ok sitemap_url →
  parse_sitemap (load_robots w c) (sitemap_get w sitemap_url) = (urls, c2) →
  urls = [] ∨ sitemap_loaded c2 = false →
  ∃ s0, start base mt md w = Ok s0
    ∧ urls_to_visit (self s0) = [(with_slash base, 0)].
Proof.
  intros Hinit Hjoin Hparse Hnothing.
  destruct (start_unfold _ _ _ _ _ _ _ _ Hinit Hjoin Hparse)
    as (Hstart & Hq & Hurl & _).
  eexists. split; [exact Hstart|]. simpl.
  destruct (seed_shape urls c2) as (_ & [(Hloaded & Hurls & _)|(_ & ->)]).
  - destruct Hnothing; congruence.
  - by rewrite Hq, Hurl.
Qed.

(** C3 (as amended). If the sitemap bootstrap returned no URL, the queue
    at the head of the loop holds the single entry made of the stored base
    URL, which is the string given to the constructor with [/] appended
    unless it already ends in [/], and depth 0. *)
Theorem homepage_seeds_frontier base mt md w c sitemap_url c2 :
  init base mt md = Ok c →
  urljoin (base_url c) "/sitemap.xml" = Ok sitemap_url →
  parse_sitemap (load_robots w c) (sitemap_get w sitemap_url) = ([], c2) →
  ∃ s0, start base mt md w = Ok s0
    ∧ urls_to_visit (self s0)
      = [(if Str.endswith base "/" then base else base +:+ "/", 0)].
Proof.
  intros Hinit Hjoin Hparse.
  apply (fallback_seed _ _ _ _ _ _ _ _ Hinit Hjoin Hparse). by left.
Qed.

(** *** Failures *)


(** **** Every execution is finite *)












(** **** What ends a crawl *)










End Scheduler.

(** ** More on the string tests *)

Lemma lower_app (s1 s2 : string) :
  Str.lower (s1 +:+ s2) = Str.lower s1 +:+ Str.lower s2.
Proof.
  induction s1 as [|c s1 IH]; [done|].
  rewrite append_cons. cbn [Str.lower]. by rewrite IH, append_cons.
Qed.

Lemma append_assoc (s1 s2 s3 : string) :
  (s1 +:+ s2) +:+ s3 = s1 +:+ (s2 +:+ s3).
Proof.
  induction s1 as [|c s1 IH]; [done|]. by rewrite !append_cons, IH.
Qed.

Lemma endswith_app (p suffix : string) : Str.endswith (p +:+ suffix) suffix = true.
Proof. apply endswith_spec. by exists p. Qed.

(** A one-character suffix test looks at the last character only. *)
Lemma endswith_char_app (p s : string) (c : ascii) :
  s ≠ "" →
  Str.endswith (p +:+ s) (String c "") = Str.endswith s (String c "").
Proof.
  intros Hs. induction p as [|a p IH]; [done|].
  rewrite append_cons. cbn [Str.endswith].
  destruct (String.eqb_spec (String a (p +:+ s)) (String c "")) as [Heq|_];
    [|done].
  injection Heq as _ Heq. destruct p; [|done]. by rewrite append_nil_l in Heq.
Qed.

Lemma rstrip_if_prefix (p : ascii → bool) (s : string) :
  ∃ t, s = Str.rstrip_if p s +:+ t.
Proof.
  induction s as [|c s [t IH]]; [by exists ""|].
  cbn [Str.rstrip_if]. destruct (_ && _).
  - by exists (String c s).
  - exists t. by rewrite append_cons, <- IH.
Qed.

Lemma rstrip_slash_no_slash (s : string) :
  Str.endswith (Str.rstrip_slash s) "/" = false.
Proof.
  unfold Str.rstrip_slash. induction s as [|c s IH]; [done|].
  cbn [Str.rstrip_if].
  destruct (String.eqb_spec (Str.rstrip_if (Ascii.eqb "/") s) "") as [Hr|Hr];
    cbn [andb].
  - rewrite Hr. destruct (Ascii.eqb_spec "/" c) as [<-|Hc]; [reflexivity|].
    cbn [Str.endswith].
    destruct (String.eqb_spec (String c "") "/") as [[= ->]|_];
      [done|reflexivity].
  - cbn [Str.endswith].
    destruct (String.eqb_spec (String c (Str.rstrip_if (Ascii.eqb "/") s)) "/")
      as [[= _ ?]|_]; [done|exact IH].
Qed.

Lemma before_hash_no_hash (s p q : string) :
  Str.before_hash s ≠ p +:+ String "#" q.
Proof.
  revert p. induction s as [|c s IH]; intros p Heq.
  - destruct p; [by rewrite append_nil_l in Heq|by rewrite append_cons in Heq].
  - cbn [Str.before_hash] in Heq. destruct (Ascii.eqb_spec c "#") as [->|Hc].
    + destruct p;
        [by rewrite append_nil_l in Heq|by rewrite append_cons in Heq].
    + destruct p as [|a p].
      * rewrite append_nil_l in Heq. by injection Heq as -> _.
      * rewrite append_cons in Heq. injection Heq as _ Heq. by eapply IH.
Qed.

Lemma with_slash_endswith (base : string) :
  Str.endswith (with_slash base) "/" = true.
Proof.
  unfold with_slash. destruct (Str.endswith base "/") eqn:Hends; [done|].
  apply endswith_app.
Qed.

Lemma with_slash_idempotent (base : string) :
  with_slash (with_slash base) = with_slash base.
Proof. unfold with_slash at 1. by rewrite with_slash_endswith. Qed.

Lemma exts_lower_case : Forall (λ ext, Str.lower ext = ext) irrelevant_exts.
Proof. repeat constructor. Qed.

Lemma exts_no_slash :
  Forall (λ ext, ext ≠ "" ∧ Str.endswith ext "/" = false) irrelevant_exts.
Proof. repeat constructor; done. Qed.

Lemma lower_slash_end (s : string) :
  Str.endswith s "/" = true → Str.endswith (Str.lower s) "/" = true.
Proof.
  intros Hs. apply endswith_spec in Hs as [p ->].
  rewrite lower_app. apply endswith_app.
Qed.

(** A string that ends in [/] passes the extension test. *)
Lemma is_valid_url_slash (url : string) :
  Str.endswith url "/" = true → is_valid_url url = true.
Proof.
  intros Hurl. apply is_valid_url_spec. intros (ext & p & Hext & Heq).
  apply lower_slash_end in Hurl. rewrite Heq in Hurl.
  pose proof exts_no_slash as Hno. rewrite Forall_forall in Hno.
  destruct (Hno ext Hext) as [Hne Hslash].
  rewrite endswith_char_app in Hurl by done. congruence.
Qed.

(** X1. Whatever precedes it, and whatever the case of its letters, a
    string that ends with a listed extension is rejected. *)
Theorem listed_extension_rejected (s ext : string) :
  Str.lower ext ∈ irrelevant_exts → is_valid_url (s +:+ ext) = false.
Proof.
  intros Hext. apply not_true_iff_false. rewrite is_valid_url_spec.
  intros Hno. apply Hno. exists (Str.lower ext), (Str.lower s).
  split; [done|]. apply lower_app.
Qed.

Lemma strip_if_length (p : ascii → bool) (s : string) :
  (String.length (Str.lstrip_if p s) ≤ String.length s
   ∧ String.length (Str.rstrip_if p s) ≤ String.length s)%nat.
Proof.
  induction s as [|c s [IHl IHr]]; [done|]. split.
  - cbn [Str.lstrip_if]. destruct (p c); simpl; lia.
  - cbn [Str.rstrip_if]. destruct (_ && _); simpl; lia.
Qed.

Lemma strip_length (s : string) :
  (String.length (Str.strip s) ≤ String.length s)%nat.
Proof.
  unfold Str.strip.
  destruct (strip_if_length Str.isspace (Str.rstrip_if Str.isspace s)) as [H1 _].
  destruct (strip_if_length Str.isspace s) as [_ H2]. lia.
Qed.

(** X2. A response body of at most 100 characters is never page content,
    whatever the status. *)
Theorem short_body_is_no_content (status : Z) (html : string) :
  (String.length html ≤ 100)%nat →
  fetch (GetResponse status (Ok html)) = Ok None.
Proof.
  intros Hlen. pose proof (strip_length html) as Hstrip.
  unfold fetch, try_catch. destruct (status =? 200); [|done]. simpl.
  destruct (Z.ltb_spec 100 (Z.of_nat (String.length (Str.strip html))));
    [lia|]. by rewrite andb_false_r.
Qed.

(** ** More on construction, the robots gate and the two extractors *)

Section Extraction.
Context `{!Library}.

(** X3. Constructing a crawler again from the base URL that a crawler
    stores gives the same crawler: the stored base URL ends in [/] and is
    not changed a second time. *)
Theorem init_idempotent base mt md c :
  init base mt md = Ok c →
  Str.endswith (base_url c) "/" = true ∧ init (base_url c) mt md = Ok c.
Proof.
  intros Hinit. pose proof Hinit as Hshape.
  apply init_shape in Hshape as (parsed_base & _ & _ & ->). simpl.
  split; [apply with_slash_endswith|].
  unfold init in *. by rewrite with_slash_idempotent.
Qed.

(** X4. After the robots policy was (or was not) read, the gate denies a
    URL exactly when the read succeeded and the policy answers [False] for
    it; a failed read and a failing lookup both permit. *)
Theorem gate_denies_iff w c url :
  robots_loaded c = false →
  can_fetch (load_robots w c) url = false
  ↔ ∃ robots_url policy,
      urljoin (base_url c) "/robots.txt" = Ok robots_url
      ∧ robots_read w robots_url = Ok policy
      ∧ policy url = Ok false.
Proof.
  intros Hloaded. unfold load_robots, try_except.
  destruct (urljoin (base_url c) "/robots.txt") as [robots_url|]; simpl.
  - destruct (robots_read w robots_url) as [policy|] eqn:Hread; simpl.
    + unfold can_fetch. simpl. split.
      * intros Hdeny. exists robots_url, policy. repeat split; try done.
        by destruct (policy url) as [[]|].
      * intros (? & ? & [= <-] & Hread' & Hdeny).
        rewrite Hread in Hread'. injection Hread' as <-. by rewrite Hdeny.
    + unfold can_fetch. rewrite Hloaded. simpl. split; [done|].
      intros (? & ? & [= <-] & Hread' & _). congruence.
  - unfold can_fetch. rewrite Hloaded. simpl. split; [done|].
    by intros (? & ? & ? & _).
Qed.

(** X5. No link that [parse_links] returns ends in [/] or contains [#]. *)
Theorem links_have_no_fragment_nor_slash c html page links :
  parse_links c html page = Ok links →
  ∀ u, u ∈ links →
    Str.endswith u "/" = false ∧ ∀ p q, u ≠ p +:+ String "#" q.
Proof.
  intros Hparse u Hu.
  destruct (parse_links_extracted _ _ _ _ Hparse u Hu)
    as (anchors & Hanchors & Hex).
  destruct Hex as (href & joined & _ & _ & -> & _).
  split; [apply rstrip_slash_no_slash|]. intros p q Heq.
  destruct (rstrip_if_prefix (Ascii.eqb "/") (Str.before_hash joined))
    as [t Ht].
  unfold Str.rstrip_slash in Heq. rewrite Heq in Ht.
  rewrite append_assoc, append_cons in Ht. by eapply before_hash_no_hash.
Qed.

(** X6. The base URL that the crawler stores (and seeds) is never among
    the links that [parse_links] returns: it ends in [/], they do not. *)
Theorem base_url_is_never_a_link base mt md c html page links :
  init base mt md = Ok c →
  parse_links c html page = Ok links →
  base_url c ∉ links.
Proof.
  intros Hinit Hparse Hin.
  apply init_shape in Hinit as (parsed_base & _ & _ & ->). simpl in Hin.
  destruct (parse_links_extracted _ _ _ _ Hparse _ Hin)
    as (anchors & Hanchors & Hex).
  destruct Hex as (href & joined & _ & _ & Heq & _).
  pose proof (with_slash_endswith base) as Hslash.
  rewrite Heq, rstrip_slash_no_slash in Hslash. done.
Qed.

Lemma parse_links_loop_complete c page hrefs links out :
  parse_links_loop c page hrefs links = Ok out →
  (∀ u, u ∈ links → u ∈ out)
  ∧ ∀ href, href ∈ hrefs →
      ∃ joined internal,
        urljoin page (Str.strip href) = Ok joined
        ∧ is_internal c (Str.rstrip_slash (Str.before_hash joined))
          = Ok internal
        ∧ (internal = true →
           is_valid_url (Str.rstrip_slash (Str.before_hash joined)) = true →
           can_fetch c (Str.rstrip_slash (Str.before_hash joined)) = true →
           Str.rstrip_slash (Str.before_hash joined) ∈ out).
Proof.
  revert links. induction hrefs as [|href hrefs IH]; intros links Hloop.
  - injection Hloop as <-. split; [done|]. intros href Hin.
    by apply elem_of_nil in Hin.
  - cbn [parse_links_loop] in Hloop.
    destruct (urljoin page (Str.strip href)) as [joined|] eqn:Hjoin; [|done].
    cbn [mbind result_bind] in Hloop.
    set (u := Str.rstrip_slash (Str.before_hash joined)) in *.
    destruct (is_internal c u) as [internal|] eqn:Hint; [|done].
    cbn [mbind result_bind] in Hloop.
    destruct (internal && is_valid_url u && can_fetch c u) eqn:Hok;
      apply IH in Hloop as [Hkeep Hrest].
    + split; [intros v Hv; apply Hkeep, elem_of_app; by left|].
      intros h Hh. apply elem_of_cons in Hh as [->|Hh]; [|by apply Hrest].
      exists joined, internal. rewrite Hjoin. repeat split; [done|].
      intros _ _ _. apply Hkeep, elem_of_app. right. by left.
    + split; [done|].
      intros h Hh. apply elem_of_cons in Hh as [->|Hh]; [|by apply Hrest].
      exists joined, internal. rewrite Hjoin. repeat split; [done|].
      intros -> Hvalid Hcan. fold u in Hvalid, Hcan.
      by rewrite Hvalid, Hcan in Hok.
Qed.

(** X7. When [parse_links] returns, the markup was accepted, every anchor
    could be joined and parsed, and the URL made from an anchor is among
    the links exactly when it is same-domain, passes the extension test and
    passes the robots gate: nothing that qualifies is left out. *)
Theorem parse_links_complete c html page links :
  parse_links c html page = Ok links →
  ∃ hrefs, find_all_a_href html = Ok hrefs ∧
  ∀ href, href ∈ hrefs →
    ∃ joined internal,
      urljoin page (Str.strip href) = Ok joined
      ∧ is_internal c (Str.rstrip_slash (Str.before_hash joined))
        = Ok internal
      ∧ (Str.rstrip_slash (Str.before_hash joined) ∈ links
         ↔ internal = true
           ∧ is_valid_url (Str.rstrip_slash (Str.before_hash joined)) = true
           ∧ can_fetch c (Str.rstrip_slash (Str.before_hash joined)) = true).
Proof.
  intros Hparse. pose proof Hparse as Hunfold.
  apply parse_links_unfold in Hunfold as (hrefs & Hhrefs & Hloop).
  exists hrefs. split; [done|]. intros href Hhref.
  destruct (parse_links_loop_complete _ _ _ _ _ Hloop) as [_ Hall].
  destruct (Hall href Hhref) as (joined & internal & Hjoin & Hint & Hin).
  exists joined, internal. split; [done|]. split; [done|]. split.
  - intros Hu.
    destruct (parse_links_extracted _ _ _ _ Hparse _ Hu)
      as (anchors & Hanchors & Hex).
    destruct Hex as (? & ? & _ & _ & _ & Hint' & ? & ?).
    repeat split; [congruence|done..].
  - intros (? & ? & ?). by apply Hin.
Qed.

Lemma parse_links_loop_raises c page hrefs links :
  parse_links_loop c page hrefs links = Raise
  ↔ ∃ href, href ∈ hrefs
      ∧ (urljoin page (Str.strip href) = Raise
         ∨ ∃ joined, urljoin page (Str.strip href) = Ok joined
             ∧ is_internal c (Str.rstrip_slash (Str.before_hash joined))
               = Raise).
Proof.
  revert links. induction hrefs as [|href hrefs IH]; intros links.
  - split; [done|]. intros (href & Hin & _). by apply elem_of_nil in Hin.
  - cbn [parse_links_loop].
    destruct (urljoin page (Str.strip href)) as [joined|] eqn:Hjoin.
    2: { split; [|done]. intros _. exists href. split; [by left|by left]. }
    cbn [mbind result_bind].
    destruct (is_internal c (Str.rstrip_slash (Str.before_hash joined)))
      as [internal|] eqn:Hint.
    2: { split; [|done]. intros _. exists href. split; [by left|].
         right. by exists joined. }
    cbn [mbind result_bind].
    assert (Hlater : (∃ h, h ∈ href :: hrefs
              ∧ (urljoin page (Str.strip h) = Raise
                 ∨ ∃ j, urljoin page (Str.strip h) = Ok j
                     ∧ is_internal c (Str.rstrip_slash (Str.before_hash j))
                       = Raise))
            ↔ ∃ h, h ∈ hrefs
              ∧ (urljoin page (Str.strip h) = Raise
                 ∨ ∃ j, urljoin page (Str.strip h) = Ok j
                     ∧ is_internal c (Str.rstrip_slash (Str.before_hash j))
                       = Raise)).
    { split.
      - intros (h & Hh & Hbad). apply elem_of_cons in Hh as [->|Hh].
        + destruct Hbad as [Hbad|(j & Hj & Hbad)]; [congruence|].
          rewrite Hjoin in Hj. injection Hj as <-. congruence.
        + by exists h.
      - intros (h & Hh & Hbad). exists h. split; [by right|done]. }
    rewrite Hlater. destruct (_ && _); apply IH.
Qed.

(** X8. [parse_links] raises exactly when the HTML parser rejects the
    markup, or the page has an anchor whose [href] cannot be joined to the
    page URL, or whose joined URL cannot be parsed. *)
Theorem parse_links_raises_iff c html page :
  parse_links c html page = Raise
  ↔ find_all_a_href html = Raise
    ∨ ∃ hrefs href,
        find_all_a_href html = Ok hrefs
        ∧ href ∈ hrefs
        ∧ (urljoin page (Str.strip href) = Raise
           ∨ ∃ joined, urljoin page (Str.strip href) = Ok joined
               ∧ is_internal c (Str.rstrip_slash (Str.before_hash joined))
                 = Raise).
Proof.
  unfold parse_links. destruct (find_all_a_href html) as [hrefs|]; simpl.
  - rewrite parse_links_loop_raises. split.
    + intros (href & Hin & Hbad). right. by exists hrefs, href.
    + intros [?|(? & href & [= <-] & Hin & Hbad)]; [done|]. by exists href.
  - split; [by left|done].
Qed.

End Extraction.

(** ** More on the sitemap bootstrap *)

Section Sitemap.
Context `{!Library}.

Lemma parse_sitemap_loop_sound c locs urls out finished :
  parse_sitemap_loop c locs urls = (out, finished) →
  ∀ u, u ∈ out →
    u ∈ urls
    ∨ ∃ text, Some text ∈ locs ∧ u = Str.strip text
        ∧ is_internal c u = Ok true ∧ is_valid_url u = true.
Proof.
  revert urls. induction locs as [|[text|] locs IH]; intros urls Hloop u Hu.
  - injection Hloop as <- _. by left.
  - cbn [parse_sitemap_loop] in Hloop.
    destruct (is_internal c (Str.strip text)) as [internal|] eqn:Hint.
    2: { injection Hloop as <- _. by left. }
    destruct (IH _ Hloop u Hu) as [Hin|(t & Ht & Hrest)].
    + destruct (internal && is_valid_url (Str.strip text)) eqn:Hok;
        [|by left].
      apply elem_of_app in Hin as [Hin|Hnew]; [by left|].
      apply list_elem_of_singleton in Hnew as ->.
      apply andb_prop in Hok as [-> Hvalid].
      right. exists text. repeat split; try done. by left.
    + right. exists t. split; [by right|done].
  - injection Hloop as <- _. by left.
Qed.

Lemma parse_sitemap_loop_finished c locs urls out :
  parse_sitemap_loop c locs urls = (out, true) →
  (None ∉ locs)
  ∧ (∀ u, u ∈ urls → u ∈ out)
  ∧ ∀ text, Some text ∈ locs →
      is_internal c (Str.strip text) = Ok true →
      is_valid_url (Str.strip text) = true →
      Str.strip text ∈ out.
Proof.
  revert urls. induction locs as [|[text|] locs IH]; intros urls Hloop.
  - injection Hloop as <-. split; [apply not_elem_of_nil|]. split; [done|].
    intros text Hin. by apply elem_of_nil in Hin.
  - cbn [parse_sitemap_loop] in Hloop.
    destruct (is_internal c (Str.strip text)) as [internal|] eqn:Hint;
      [|done].
    apply IH in Hloop as (Hnone & Hkeep & Hrest).
    split; [by apply not_elem_of_cons|]. split.
    + intros u Hu. apply Hkeep. destruct (_ && _); [|done].
      apply elem_of_app. by left.
    + intros t Ht Hint' Hvalid.
      apply elem_of_cons in Ht as [[= ->]|Ht]; [|by apply Hrest].
      apply Hkeep. rewrite Hint in Hint'. injection Hint' as ->.
      rewrite Hvalid. simpl. apply elem_of_app. right. by left.
  - done.
Qed.

(** X9. Every URL that [parse_sitemap] returns is the stripped text of a
    [loc] element, is same-domain and passes the extension test.  When the
    call sets [sitemap_loaded], the response had status 200 and a body
    that parsed, every [loc] element had a text, and the returned set holds
    exactly the stripped texts that are same-domain and pass the test. *)
Theorem parse_sitemap_exact c r urls c2 :
  parse_sitemap c r = (urls, c2) →
  sitemap_loaded c = false →
  (urls ≠ [] ∨ sitemap_loaded c2 = true →
   ∃ text locs,
     r = GetResponse 200 (Ok text) ∧ findall_loc text = Ok locs
     ∧ (∀ u, u ∈ urls →
          ∃ t, Some t ∈ locs ∧ u = Str.strip t
               ∧ is_internal c u = Ok true ∧ is_valid_url u = true)
     ∧ (sitemap_loaded c2 = true →
        (None ∉ locs)
        ∧ ∀ t, Some t ∈ locs →
            is_internal c (Str.strip t) = Ok true →
            is_valid_url (Str.strip t) = true →
            Str.strip t ∈ urls)).
Proof.
  unfold parse_sitemap. intros Hparse Hfresh Hsome.
  assert (Hnone : ([] : list string, c) = (urls, c2) → False).
  { intros [= <- <-]. destruct Hsome; congruence. }
  destruct r as [|status [text|]]; [done| |by destruct (status =? 200)].
  destruct (Z.eqb_spec status 200) as [->|_]; [|done].
  destruct (findall_loc text) as [locs|] eqn:Hlocs; [|done].
  destruct (parse_sitemap_loop c locs []) as [urls' finished] eqn:Hloop.
  injection Hparse as <- <-. exists text, locs.
  split; [done|]. split; [done|]. split.
  - intros u Hu.
    destruct (parse_sitemap_loop_sound _ _ _ _ _ Hloop u Hu) as [Hin|Hex];
      [by apply elem_of_nil in Hin|done].
  - destruct finished; [|congruence]. intros _.
    by apply parse_sitemap_loop_finished in Hloop as (? & _ & ?).
Qed.

Lemma parse_sitemap_loop_base_domain c c' locs urls :
  base_domain c' = base_domain c →
  parse_sitemap_loop c' locs urls = parse_sitemap_loop c locs urls.
Proof.
  intros Hdom. revert urls. induction locs as [|[text|] locs IH]; intros urls.
  - done.
  - cbn [parse_sitemap_loop].
    rewrite (is_internal_base_domain c c' _ Hdom).
    destruct (is_internal c (Str.strip text)); [apply IH|done].
  - done.
Qed.

(** X10. The URLs that the sitemap bootstrap returns do not depend on the
    robots policy: whatever [robots.txt] allowed, denied or failed to
    deliver, [parse_sitemap] returns the same URLs. *)
Theorem sitemap_ignores_robots w c r :
  (parse_sitemap (load_robots w c) r).1 = (parse_sitemap c r).1.
Proof.
  destruct (load_robots_same w c) as (_ & Hdom & _).
  unfold parse_sitemap.
  destruct r as [|status [text|]]; [done| |by destruct (status =? 200)].
  destruct (status =? 200); [|done].
  destruct (findall_loc text) as [locs|]; [|done].
  rewrite (parse_sitemap_loop_base_domain c _ _ _ Hdom).
  by destruct (parse_sitemap_loop c locs []).
Qed.

End Sitemap.

(** ** More on the scheduler *)

Section Rounds.
Context `{!Library}.

(** *** Which URLs get into the queue and the result list *)

Lemma handle_url_resume_gate url depth r c c' out :
  handle_url_resume url depth r c = (c', out) →
  robots_loaded c' = robots_loaded c ∧ robot_parser c' = robot_parser c
  ∧ ∃ links,
      urls_to_visit c' = urls_to_visit c ++ ((λ l, (l, depth + 1)) <$> links)
      ∧ Forall (λ l, is_valid_url l = true ∧ can_fetch c l = true) links.
Proof.
  unfold handle_url_resume. intros Hres.
  assert (Hsame : ∀ c1 o, (c1, o) = (c', out) →
            urls_to_visit c1 = urls_to_visit c →
            ∃ links, urls_to_visit c' = urls_to_visit c
                       ++ ((λ l, (l, depth + 1)) <$> links)
              ∧ Forall (λ l, is_valid_url l = true ∧ can_fetch c l = true)
                  links).
  { intros c1 o [= <- _] Hq. exists []. rewrite Hq, app_nil_r. auto. }
  destruct (fetch r) as [[html|]|].
  2,3: injection Hres as <- <-; repeat split; auto; by eapply Hsame.
  destruct (Str.truthy html).
  2: injection Hres as <- <-; repeat split; auto; by eapply Hsame.
  cbn [max_depth set_result_urls] in Hres.
  destruct (depth <? max_depth c).
  2: injection Hres as <- <-; repeat split; auto; by eapply Hsame.
  destruct (parse_links _ html url) as [links|] eqn:Hlinks.
  2: injection Hres as <- <-; repeat split; auto; by eapply Hsame.
  rewrite enqueue_links_eq in Hres.
  injection Hres as <- <-. repeat split; auto.
  eexists. split; [reflexivity|].
  apply Forall_forall. intros l Hl.
  apply list_elem_of_filter in Hl as [_ Hl].
  rewrite set_iter_elem in Hl.
  destruct (parse_links_extracted _ _ _ _ Hlinks l Hl)
    as (anchors & Hanchors & Hex).
  by destruct Hex as (? & ? & _ & _ & _ & _ & ? & ?).
Qed.

Lemma step_gate (s : state) (e : event) (url : string) :
  can_fetch (self (step s e)) url = can_fetch (self s) url.
Proof.
  destruct e as [|i|i r]; simpl.
  - destruct (phase s); try done. destruct (forallb _ _); [|done].
    by destruct (loop_iteration_cases s) as [[_ ->]|[_ ->]].
  - destruct (tasks s !! i) as [t|]; [|done]. by destruct (t_status t).
  - destruct (tasks s !! i) as [t|]; [|done].
    destruct (t_status t); try done.
    destruct (handle_url_resume _ _ _ _) as [c' out] eqn:Hres.
    apply handle_url_resume_gate in Hres as (Hloaded & Hparser & _).
    unfold can_fetch. simpl. by rewrite Hloaded, Hparser.
Qed.

(** A property of URLs is kept by a step when the queue still has it after
    the second half of any unit of the round. *)
Lemma urls_inv_step (P : string → Prop) (s : state) (e : event) :
  (∀ i t r, tasks s !! i = Some t →
     Forall (λ e, P e.1)
       (urls_to_visit
          (handle_url_resume (t_url t) (t_depth t) r (self s)).1)) →
  urls_inv P s → urls_inv P (step s e).
Proof.
  intros Hlinks (Hqueue & Htasks & Hresults).
  destruct e as [|i|i r]; simpl.
  - destruct (phase s); try done. destruct (forallb _ _); [|done].
    destruct (loop_iteration_cases s) as [[_ ->]|[_ ->]].
    { by repeat split. }
    repeat split; simpl; auto.
    + by apply Forall_drop.
    + apply Forall_fmap, Forall_forall. intros e He. simpl.
      apply fresh_admitted in He as (Hin & _).
      rewrite Forall_forall in Hqueue. by apply Hqueue.
  - destruct (tasks s !! i) as [t|] eqn:Hi; [|done].
    destruct (t_status t); try done.
    repeat split; simpl; auto.
    apply Forall_insert; [done|]. simpl.
    rewrite Forall_forall in Htasks. apply Htasks.
    by eapply list_elem_of_lookup_2.
  - destruct (tasks s !! i) as [t|] eqn:Hi; [|done].
    destruct (t_status t); try done.
    assert (Ht : P (t_url t)).
    { rewrite Forall_forall in Htasks. apply Htasks.
      by eapply list_elem_of_lookup_2. }
    specialize (Hlinks i t r Hi).
    destruct (handle_url_resume _ _ _ _) as [c' out] eqn:Hres.
    apply handle_url_resume_shape in Hres
      as (_ & _ & _ & _ & _ & Hres & _).
    repeat split; simpl; auto.
    + by apply Forall_insert.
    + destruct Hres as [->| ->]; [done|].
      apply Forall_app. split; [done|]. by apply Forall_singleton.
Qed.

Lemma urls_inv_run (P : string → Prop) (s : state) (events : list event) :
  (∀ l, is_valid_url l = true → can_fetch (self s) l = true → P l) →
  urls_inv P s → urls_inv P (run s events).
Proof.
  revert s. induction events as [|e events IH]; intros s HP Hinv; [done|].
  rewrite run_cons. apply IH.
  - intros l Hvalid Hcan. apply HP; [done|]. by rewrite <- (step_gate s e).
  - apply urls_inv_step; [|done]. intros i t r Hi.
    destruct (handle_url_resume _ _ _ _) as [c' out] eqn:Hres.
    apply handle_url_resume_gate in Hres as (_ & _ & links & Hq & Hlinks).
    cbn [fst]. rewrite Hq.
    destruct Hinv as (Hqueue & _). apply Forall_app. split; [done|].
    apply Forall_fmap. eapply Forall_impl; [exact Hlinks|].
    intros l [Hvalid Hcan]. by apply HP.
Qed.

Lemma start_seeds_valid base mt md w s0 :
  start base mt md w = Ok s0 →
  Forall (λ e, is_valid_url e.1 = true) (urls_to_visit (self s0)).
Proof.
  intros Hstart.
  apply start_shape in Hstart as (c & url & urls & c2 & Hinit & _ & Hparse & ->).
  apply init_shape in Hinit as (parsed_base & _ & _ & ->).
  pose proof Hparse as Hshape.
  apply parse_sitemap_shape in Hshape as ((Hurl & _ & _ & _ & Hq & _) & _).
  destruct (load_robots_same w
    {| base_url := with_slash base; base_domain := netloc parsed_base;
       max_tasks := mt; max_depth := md; urls_to_visit := [];
       visited_urls := ∅; result_urls := [];
       robot_parser := λ _, Ok false;
       robots_loaded := false; sitemap_loaded := false |})
    as (Hurl0 & _ & _ & _ & Hq0 & _).
  simpl in *.
  destruct (seed_shape urls c2) as (_ & [(_ & _ & ->)|(_ & ->)]);
    rewrite Hq, Hq0; simpl.
  - apply Forall_fmap, Forall_forall. intros u Hu. simpl.
    rewrite set_iter_elem in Hu. unfold parse_sitemap in Hparse.
    destruct (sitemap_get w url) as [|status [text|]];
      [by injection Hparse as <- _; apply elem_of_nil in Hu| |].
    2: { destruct (status =? 200); injection Hparse as <- _;
         by apply elem_of_nil in Hu. }
    destruct (status =? 200).
    2: { injection Hparse as <- _. by apply elem_of_nil in Hu. }
    destruct (findall_loc text) as [locs|].
    2: { injection Hparse as <- _. by apply elem_of_nil in Hu. }
    destruct (parse_sitemap_loop _ locs []) as [urls' finished] eqn:Hloop.
    injection Hparse as <- _.
    destruct (parse_sitemap_loop_sound _ _ _ _ _ Hloop u Hu) as [Hin|Hex];
      [by apply elem_of_nil in Hin|].
    by destruct Hex as (? & _ & _ & _ & ?).
  - apply Forall_singleton. simpl. rewrite Hurl, Hurl0.
    apply is_valid_url_slash, with_slash_endswith.
Qed.

(** X11. No URL of the result list ends in a listed extension: at any
    point of a crawl every result passes [is_valid_url]. *)
Theorem results_pass_extension_test base mt md w s0 events :
  start base mt md w = Ok s0 →
  ∀ u, u ∈ result_urls (self (run s0 events)) → is_valid_url u = true.
Proof.
  intros Hstart u Hu. pose proof (start_seeds_valid _ _ _ _ _ Hstart) as Hseeds.
  apply start_fresh in Hstart as (Htasks & _ & _ & _ & Hres & _).
  assert (Hinv : urls_inv (λ u, is_valid_url u = true) s0).
  { unfold urls_inv. by rewrite Htasks, Hres. }
  apply (urls_inv_run _ _ events) in Hinv as (_ & _ & Hall); [|done].
  rewrite Forall_forall in Hall. by apply Hall.
Qed.


(** *** Bookkeeping of the visited set and of the results *)

Lemma visited_inv_step (s : state) (e : event) :
  visited_inv s → visited_inv (step s e).
Proof.
  intros (Hstarted & Hrecorded & Hresults & Hvisited).
  destruct e as [|i|i r]; simpl.
  - destruct (phase s); try done. destruct (forallb _ _); [|done].
    destruct (loop_iteration_cases s) as [[_ ->]|[_ ->]].
    { by repeat split. }
    repeat split; simpl; auto.
    + apply Forall_fmap, Forall_forall. intros e _. by left.
    + apply Forall_fmap, Forall_forall. intros e He. simpl.
      rewrite fmap_app. apply elem_of_app. right.
      by apply list_elem_of_fmap_2.
    + intros u Hu. rewrite fmap_app. apply elem_of_app. left. by apply Hvisited.
  - destruct (tasks s !! i) as [t|] eqn:Hi; [|done].
    destruct (t_status t) eqn:Hstatus; try done.
    assert (Ht : t_url t ∈ (created s).*1).
    { rewrite Forall_forall in Hrecorded. apply Hrecorded.
      by eapply list_elem_of_lookup_2. }
    repeat split; simpl.
    + apply Forall_insert.
      * eapply Forall_impl; [exact Hstarted|]. intros t' [?|?]; [by left|].
        right. apply elem_of_union. by right.
      * right. apply elem_of_union. left. by apply elem_of_singleton.
    + by apply Forall_insert.
    + eapply Forall_impl; [exact Hresults|]. intros u Hu.
      apply elem_of_union. by right.
    + intros u Hu. apply elem_of_union in Hu as [Hu|Hu]; [|by apply Hvisited].
      by apply elem_of_singleton in Hu as ->.
  - destruct (tasks s !! i) as [t|] eqn:Hi; [|done].
    destruct (t_status t) eqn:Hstatus; try done.
    assert (Ht : t_url t ∈ visited_urls (self s)).
    { rewrite Forall_forall in Hstarted.
      destruct (Hstarted t) as [?|?]; [by eapply list_elem_of_lookup_2| |done].
      congruence. }
    assert (Ht' : t_url t ∈ (created s).*1).
    { rewrite Forall_forall in Hrecorded. apply Hrecorded.
      by eapply list_elem_of_lookup_2. }
    destruct (handle_url_resume _ _ _ _) as [c' out] eqn:Hres.
    apply handle_url_resume_shape in Hres
      as (_ & _ & _ & _ & Hv & Hres & _).
    repeat split; simpl; rewrite ?Hv; auto.
    + apply Forall_insert; [done|]. by right.
    + by apply Forall_insert.
    + destruct Hres as [->| ->]; [done|].
      apply Forall_app. split; [done|]. by apply Forall_singleton.
Qed.

Lemma visited_inv_run (s : state) (events : list event) :
  visited_inv s → visited_inv (run s events).
Proof.
  revert s. induction events as [|e events IH]; intros s Hinv; [done|].
  rewrite run_cons. by apply IH, visited_inv_step.
Qed.

Lemma start_visited_inv base mt md w s0 :
  start base mt md w = Ok s0 → visited_inv s0.
Proof.
  intros Hstart.
  apply start_fresh in Hstart as (Htasks & Hcreated & _ & Hv & Hres & _).
  unfold visited_inv. rewrite Htasks, Hcreated, Hv, Hres.
  repeat split; done.
Qed.

(** X13. At any point of a crawl every URL of the result list is in the
    visited set, and every URL of the visited set is the URL of a unit
    that the scheduler created. *)
Theorem results_visited_and_dispatched base mt md w s0 events :
  start base mt md w = Ok s0 →
  let s := run s0 events in
  (∀ u, u ∈ result_urls (self s) → u ∈ visited_urls (self s))
  ∧ (∀ u, u ∈ visited_urls (self s) → u ∈ (created s).*1).
Proof.
  intros Hstart. apply start_visited_inv in Hstart.
  apply (visited_inv_run _ events) in Hstart as (_ & _ & Hres & Hvisited).
  simpl. split; [|done]. by rewrite Forall_forall in Hres.
Qed.

Lemma pending_insert (ts : list task) (i : nat) (t t' : task) :
  ts !! i = Some t →
  (pending (<[i := t']> ts) + (if completed t then 0 else 1)
   = pending ts + (if completed t' then 0 else 1))%nat.
Proof.
  unfold pending. revert i. induction ts as [|a ts IH]; intros i Hi; [done|].
  destruct i as [|i]; simpl in *.
  - injection Hi as ->. rewrite !filter_cons.
    destruct (completed t), (completed t'); simpl; repeat case_decide;
      simpl; try done; lia.
  - specialize (IH i Hi). rewrite !filter_cons.
    case_decide; simpl; lia.
Qed.

Lemma count_step (s : state) (e : event) :
  (length (result_urls (self s)) + pending (tasks s) ≤ length (created s))%nat →
  (length (result_urls (self (step s e))) + pending (tasks (step s e))
   ≤ length (created (step s e)))%nat.
Proof.
  intros Hcount. destruct e as [|i|i r]; simpl.
  - destruct (phase s); try done. destruct (forallb _ _); [|done].
    destruct (loop_iteration_cases s) as [[_ ->]|[_ ->]]; simpl.
    { unfold pending. simpl. lia. }
    rewrite length_app. unfold pending at 1.
    pose proof (length_filter (λ t, completed t = false)
                  (new_task <$> filter (admitted (self s)) (batch (self s)))).
    rewrite length_fmap in *. lia.
  - destruct (tasks s !! i) as [t|] eqn:Hi; [|done].
    destruct (t_status t) eqn:Hstatus; try done. simpl.
    pose proof (pending_insert _ _ _ (set_status Awaiting t) Hi) as Hp.
    unfold completed in Hp at 1 2. rewrite Hstatus in Hp. simpl in Hp. lia.
  - destruct (tasks s !! i) as [t|] eqn:Hi; [|done].
    destruct (t_status t) eqn:Hstatus; try done.
    pose proof (pending_insert _ _ _ (set_status Completed t) Hi) as Hp.
    unfold completed in Hp at 1 2. rewrite Hstatus in Hp. simpl in Hp.
    destruct (handle_url_resume _ _ _ _) as [c' out] eqn:Hres.
    apply handle_url_resume_shape in Hres
      as (_ & _ & _ & _ & _ & Hres & _).
    simpl. destruct Hres as [->| ->]; rewrite ?length_app; simpl; lia.
Qed.

(** X14. At any point of a crawl the result list is no longer than the
    list of units created: a unit adds at most one URL to the results. *)
Theorem results_at_most_units base mt md w s0 events :
  start base mt md w = Ok s0 →
  (length (result_urls (self (run s0 events)))
   ≤ length (created (run s0 events)))%nat.
Proof.
  intros Hstart.
  apply start_fresh in Hstart as (Htasks & Hcreated & _ & _ & Hres & _).
  assert (Hcount : (length (result_urls (self s0)) + pending (tasks s0)
                    ≤ length (created s0))%nat).
  { by rewrite Htasks, Hcreated, Hres. }
  clear Htasks Hcreated Hres. revert s0 Hcount.
  induction events as [|e events IH]; intros s0 Hcount; [simpl; lia|].
  rewrite run_cons. by apply IH, count_step.
Qed.

(** *** The size of a round *)

Lemma cap_step (s : state) (e : event) :
  Z.of_nat (length (tasks s)) ≤ Z.max 0 (max_tasks (self s)) →
  max_tasks (self (step s e)) = max_tasks (self s)
  ∧ Z.of_nat (length (tasks (step s e))) ≤ Z.max 0 (max_tasks (self s)).
Proof.
  intros Hcap. destruct e as [|i|i r]; simpl.
  - destruct (phase s); try done. destruct (forallb _ _); [|done].
    destruct (loop_iteration_cases s) as [[_ ->]|[_ ->]]; simpl; [lia|].
    split; [done|]. rewrite length_fmap.
    pose proof (length_filter (admitted (self s)) (batch (self s))).
    unfold batch, batch_size in *. rewrite length_take in *. lia.
  - destruct (tasks s !! i) as [t|]; [|done].
    destruct (t_status t); try done. simpl. by rewrite length_insert.
  - destruct (tasks s !! i) as [t|]; [|done].
    destruct (t_status t); try done.
    destruct (handle_url_resume _ _ _ _) as [c' out] eqn:Hres.
    apply handle_url_resume_shape in Hres as (_ & _ & Hmt & _).
    simpl. by rewrite length_insert.
Qed.

(** X15. At any point of a crawl the number of units of the current round
    is at most [max_tasks]. *)
Theorem round_within_max_tasks base mt md w s0 events :
  start base mt md w = Ok s0 →
  Z.of_nat (length (tasks (run s0 events))) ≤ mt.
Proof.
  intros Hstart.
  apply start_fresh in Hstart as (Htasks & _ & _ & _ & _ & Hmt & Hpos & _).
  assert (Hcap : max_tasks (self s0) = mt
                 ∧ Z.of_nat (length (tasks s0)) ≤ Z.max 0 mt).
  { rewrite Htasks. simpl. split; [done|lia]. }
  clear Htasks Hmt. revert s0 Hcap.
  induction events as [|e events IH]; intros s0 [Hmt Hcap]; [simpl; lia|].
  rewrite run_cons. apply IH. rewrite <- Hmt in Hcap.
  destruct (cap_step s0 e Hcap) as [Hmt' Hcap'].
  split; [congruence|]. by rewrite <- Hmt.
Qed.

(** X16. An enabled iteration of the loop over a non-empty queue takes the
    first [min(max_tasks, qsize)] entries off the queue and creates units,
    in queue order, for exactly those whose URL is not visited and whose
    depth is at most [max_depth]; the visited set and the result list are
    not touched. *)
Theorem round_takes_queue_front (s : state) :
  phase s = Looping →
  forallb completed (tasks s) = true →
  urls_to_visit (self s) ≠ [] →
  let s' := step s Main in
  urls_to_visit (self s')
  = drop (batch_size (self s)) (urls_to_visit (self s))
  ∧ created s' = created s ++ filter (admitted (self s)) (batch (self s))
  ∧ tasks s' = new_task <$> filter (admitted (self s)) (batch (self s))
  ∧ visited_urls (self s') = visited_urls (self s)
  ∧ result_urls (self s') = result_urls (self s)
  ∧ phase s' = Looping.
Proof.
  intros Hphase Hall Hq. simpl. rewrite Hphase, Hall.
  by destruct (loop_iteration_cases s) as [[? _]|[_ ->]].
Qed.

(** *** The end of a crawl *)

Lemma returned_step (s : state) (e : event) :
  (phase s = Returned → tasks s = []) →
  phase (step s e) = Returned → tasks (step s e) = [].
Proof.
  intros Hinv. destruct e as [|i|i r]; simpl.
  - destruct (phase s) eqn:Hphase; [|by rewrite Hphase..].
    destruct (forallb _ _); [|by rewrite Hphase].
    by destruct (loop_iteration_cases s) as [[_ ->]|[_ ->]].
  - destruct (tasks s !! i) as [t|] eqn:Hi; [|done].
    destruct (t_status t); try done. simpl. intros Hphase.
    rewrite (Hinv Hphase) in Hi. done.
  - destruct (tasks s !! i) as [t|] eqn:Hi; [|done].
    destruct (t_status t); try done.
    destruct (handle_url_resume _ _ _ _) as [c' [[]|]]; simpl; [|done].
    intros Hphase. rewrite (Hinv Hphase) in Hi. done.
Qed.

Lemma returned_run (s : state) (events : list event) :
  (phase s = Returned → tasks s = []) →
  phase (run s events) = Returned → tasks (run s events) = [].
Proof.
  revert s. induction events as [|e events IH]; intros s Hinv; [done|].
  rewrite run_cons. by apply IH, returned_step.
Qed.

Lemma final_run (s : state) (events : list event) :
  phase s = Returned → tasks s = [] → run s events = s.
Proof.
  intros Hphase Htasks. induction events as [|e events IH]; [done|].
  rewrite run_cons.
  assert (Hstep : step s e = s); [|by rewrite Hstep].
  destruct e as [|i|i r]; simpl; rewrite ?Hphase, ?Htasks; done.
Qed.

(** X17. Once [crawl] has returned, nothing changes any more: whatever
    events follow, the state, and with it the result list that [run()]
    hands back, stays as it is. *)
Theorem returned_is_final base mt md w s0 events1 events2 :
  start base mt md w = Ok s0 →
  phase (run s0 events1) = Returned →
  run s0 (events1 ++ events2) = run s0 events1.
Proof.
  intros Hstart Hphase.
  apply start_fresh in Hstart as (Htasks & _ & Hlooping & _).
  rewrite run_app. apply final_run; [done|].
  apply returned_run; [|done]. by rewrite Hlooping.
Qed.

(** X18. Once an exception has left [crawl], the scheduler creates no
    further unit and [crawl] never returns: the phase stays [Failed]. *)
Theorem failed_is_final (s : state) (events : list event) :
  phase s = Failed →
  phase (run s events) = Failed ∧ created (run s events) = created s.
Proof.
  revert s. induction events as [|e events IH]; intros s Hphase; [done|].
  rewrite run_cons.
  assert (Hstep : phase (step s e) = Failed ∧ created (step s e) = created s).
  { destruct e as [|i|i r]; simpl.
    - by rewrite Hphase.
    - destruct (tasks s !! i) as [t|]; [|done]. by destruct (t_status t).
    - destruct (tasks s !! i) as [t|]; [|done].
      destruct (t_status t); try done.
      destruct (handle_url_resume _ _ _ _) as [c' [[]|]]; by simpl. }
  destruct Hstep as [Hphase' Hcreated]. rewrite <- Hcreated. by apply IH.
Qed.

(** X19. With [max_tasks = 0] the crawl never makes a step: it is seeded,
    and then every iteration of the loop takes nothing from the queue, so
    the loop never ends and nothing is ever fetched. *)
Theorem zero_tasks_never_ends base md w s0 events :
  start base 0 md w = Ok s0 →
  run s0 events = s0 ∧ phase s0 = Looping ∧ created s0 = [].
Proof.
  intros Hstart.
  apply start_fresh in Hstart
    as (Htasks & Hcreated & Hphase & _ & _ & Hmt & _ & _ & _ & Hq).
  split; [|done]. induction events as [|e events IH]; [done|].
  rewrite run_cons.
  assert (Hstep : step s0 e = s0); [|by rewrite Hstep].
  destruct e as [|i|i r]; simpl; rewrite ?Hphase, ?Htasks; try done. simpl.
  unfold loop_iteration.
  destruct (urls_to_visit (self s0)) as [|entry queue] eqn:Hqueue; [done|].
  unfold batch_size. rewrite Hmt, Hqueue. simpl.
  rewrite <- Hqueue, set_urls_to_visit_same, app_nil_r.
  destruct s0. simpl in *. by subst.
Qed.

(** *** Small depth limits *)

(** X20. With a negative [max_depth] no unit is ever created and the
    result list stays empty. *)
Theorem negative_depth_fetches_nothing base mt md w s0 events :
  start base mt md w = Ok s0 →
  md < 0 →
  created (run s0 events) = [] ∧ result_urls (self (run s0 events)) = [].
Proof.
  intros Hstart Hmd.
  pose proof (start_depth_inv _ _ _ _ _ Hstart) as Hdepth.
  apply (depth_inv_run _ _ events) in Hdepth as (_ & Hcreated & _).
  apply start_visited_inv in Hstart.
  apply (visited_inv_run _ events) in Hstart as (_ & _ & Hres & Hvisited).
  assert (Hnone : created (run s0 events) = []).
  { destruct (created (run s0 events)) as [|e l]; [done|].
    apply Forall_cons in Hcreated as [? _]. lia. }
  split; [done|].
  destruct (result_urls (self (run s0 events))) as [|u l]; [done|].
  apply Forall_cons in Hres as [Hu _]. apply Hvisited in Hu.
  rewrite Hnone in Hu. by apply elem_of_nil in Hu.
Qed.

Lemma seeds_only_step (P : string → Prop) md (s : state) (e : event) :
  md ≤ 0 →
  depth_inv md s → urls_inv P s → urls_inv P (step s e).
Proof.
  intros Hmd (Hmax & _ & Htasks & _) Hinv. apply urls_inv_step; [|done].
  intros i t r Hi.
  assert (Ht : 0 ≤ t_depth t ≤ md).
  { rewrite Forall_forall in Htasks. apply Htasks.
    by eapply list_elem_of_lookup_2. }
  destruct (handle_url_resume _ _ _ _) as [c' out] eqn:Hres.
  apply handle_url_resume_shape in Hres
    as (_ & _ & _ & _ & _ & _ & links & Hq & [->|Hlt] & _); [|lia].
  cbn [fst]. rewrite Hq. simpl. rewrite app_nil_r. by destruct Hinv.
Qed.

(** X21. With [max_depth] at most 0 links are never followed: at any point
    of a crawl every URL in the queue and in the result list is one of the
    URLs the queue was seeded with. *)
Theorem depth_zero_keeps_to_seeds base mt md w s0 events :
  start base mt md w = Ok s0 →
  md ≤ 0 →
  let s := run s0 events in
  (∀ e, e ∈ urls_to_visit (self s) → e.1 ∈ (urls_to_visit (self s0)).*1)
  ∧ (∀ u, u ∈ result_urls (self s) → u ∈ (urls_to_visit (self s0)).*1).
Proof.
  intros Hstart Hmd.
  pose proof (start_depth_inv _ _ _ _ _ Hstart) as Hdepth.
  apply start_fresh in Hstart as (Htasks & _ & _ & _ & Hres & _).
  assert (Hinv : urls_inv (λ u, u ∈ (urls_to_visit (self s0)).*1) s0).
  { unfold urls_inv. rewrite Htasks, Hres. repeat split; try done.
    apply Forall_forall. intros e He. by apply list_elem_of_fmap_2. }
  clear Htasks Hres. simpl.
  set (seeds := (urls_to_visit (self s0)).*1) in *. clearbody seeds.
  revert s0 Hdepth Hinv.
  induction events as [|e events IH]; intros s0 Hdepth Hinv.
  - destruct Hinv as (Hq & _ & Hr).
    rewrite Forall_forall in Hq. rewrite Forall_forall in Hr. by split.
  - rewrite run_cons. apply IH.
    + by apply depth_inv_step.
    + by eapply seeds_only_step.
Qed.

(** *** What one unit does to the queue *)

(** X22. When a unit has fetched a page below the depth limit and
    [parse_links] raises on it, the page is appended to the result list,
    nothing is put into the queue, and the exception leaves [crawl]. *)
Theorem unparsable_link_fails_crawl (s : state) (i : nat) (t : task)
    (r : get_outcome) (html : string) :
  tasks s !! i = Some t →
  t_status t = Awaiting →
  fetch r = Ok (Some html) →
  t_depth t < max_depth (self s) →
  parse_links (self s) html (t_url t) = Raise →
  let s' := step s (Finish i r) in
  phase s' = Failed
  ∧ result_urls (self s') = result_urls (self s) ++ [t_url t]
  ∧ urls_to_visit (self s') = urls_to_visit (self s)
  ∧ created s' = created s.
Proof.
  intros Hi Hstatus Hfetch Hdepth Hraise. simpl. rewrite Hi, Hstatus.
  unfold handle_url_resume. rewrite Hfetch, (truthy_content _ _ Hfetch).
  cbn [max_depth set_result_urls].
  destruct (Z.ltb_spec (t_depth t) (max_depth (self s))); [|lia].
  unfold parse_links in *.
  destruct (find_all_a_href html) as [hrefs|]; simpl in *; [|done].
  by rewrite parse_links_loop_result_urls, Hraise.
Qed.

(** X23. When the request of a unit below the depth limit is over with
    page content on which [parse_links] returns a set of links, the unit's
    URL is appended to the result list, and the queue keeps its entries and
    gets, at its end, exactly one entry for each returned link that is not
    in the visited set, at the unit's depth plus one; so it gets none for
    the unit's own URL. *)
Theorem unit_appends_new_links base mt md w s0 events i t r html extracted :
  start base mt md w = Ok s0 →
  let s := run s0 events in
  tasks s !! i = Some t →
  t_status t = Awaiting →
  fetch r = Ok (Some html) →
  t_depth t < max_depth (self s) →
  parse_links (self s) html (t_url t) = Ok extracted →
  ∃ links,
    urls_to_visit (self (step s (Finish i r)))
    = urls_to_visit (self s) ++ ((λ l, (l, t_depth t + 1)) <$> links)
    ∧ NoDup links
    ∧ (∀ l, l ∈ links ↔ l ∈ extracted ∧ l ∉ visited_urls (self s))
    ∧ (t_url t ∉ links)
    ∧ result_urls (self (step s (Finish i r)))
      = result_urls (self s) ++ [t_url t].
Proof.
  intros Hstart s Hi Hstatus Hfetch Hdepth Hparse.
  apply start_visited_inv in Hstart.
  apply (visited_inv_run _ events) in Hstart as (Hstarted & _).
  fold s in Hstarted.
  assert (Hvisited : t_url t ∈ visited_urls (self s)).
  { rewrite Forall_forall in Hstarted.
    destruct (Hstarted t) as [Hcreated|Hvisited];
      [by eapply list_elem_of_lookup_2|congruence|done]. }
  exists (filter (unvisited (self s)) (set_iter extracted)).
  assert (Hmem : ∀ l, l ∈ filter (unvisited (self s)) (set_iter extracted)
                      ↔ l ∈ extracted ∧ l ∉ visited_urls (self s)).
  { intros l. rewrite list_elem_of_filter, set_iter_elem.
    unfold unvisited. tauto. }
  simpl. rewrite Hi, Hstatus. unfold handle_url_resume.
  rewrite Hfetch, (truthy_content _ _ Hfetch).
  cbn [max_depth set_result_urls].
  destruct (Z.ltb_spec (t_depth t) (max_depth (self s))); [|lia].
  rewrite parse_links_result_urls, Hparse, enqueue_links_eq. simpl.
  split; [done|]. split; [apply NoDup_filter, set_iter_NoDup|].
  split; [done|]. split; [|done].
  intros Hin. apply Hmem in Hin as [_ Hnew]. done.
Qed.

End Rounds.

(** ** The example sites, crawled with the reference library *)

#[local] Existing Instance Reference.library.

Lemma seeded_start (mt md : Z) :
  0 ≤ mt → start "https://example.test" mt md Example.bare
           = Ok (Example.seeded mt md).
Proof.
  intros Hmt. unfold start, init. simpl.
  destruct (Z.ltb_spec mt 0); [lia|]. reflexivity.
Qed.

(** Two pages of one round that link to the same new page put it into the
    queue twice, and the next round creates a unit for each entry. *)
Example same_url_dispatched_twice :
  created (run (Example.seeded 500 3)
             [Main; Start 0; Finish 0 (Example.ok Example.home_html);
              Main; Start 0; Start 1;
              Finish 0 (Example.ok Example.a_html);
              Finish 1 (Example.ok Example.a_html);
              Main])
  = [("https://example.test/", 0);
     ("https://example.test/a", 1); ("https://example.test/b", 1);
     ("https://example.test/c", 2); ("https://example.test/c", 2)].
Proof. vm_compute. reflexivity. Qed.

(** An anchor that [urljoin] rejects ends the crawl with an exception. *)
Example malformed_link_aborts :
  phase (run (Example.seeded 500 3)
           [Main; Start 0; Finish 0 (Example.ok Example.broken_link_html)])
  = Failed.
Proof. vm_compute. reflexivity. Qed.

(** Markup that the HTML parser rejects ends the crawl with an exception,
    though the page has no anchor at all. *)
Example rejected_markup_aborts :
  find_all_a_href Example.unparsable_html = Raise
  ∧ phase (run (Example.seeded 500 3)
             [Main; Start 0; Finish 0 (Example.ok Example.unparsable_html)])
    = Failed.
Proof. split; vm_compute; reflexivity. Qed.

Lemma fetched_depth_bounded_witness :
  start "https://example.test" 1 3 Example.bare = Ok (Example.seeded 1 3)
  ∧ let s := run (Example.seeded 1 3) Example.three_rounds in
    Forall (λ e, 0 ≤ e.2 ≤ 3) (created s)
    ∧ Forall (λ t, 0 ≤ t_depth t ≤ 3) (tasks s)
    ∧ Forall (λ e, e.2 = 0 ∨ 1 ≤ e.2 ≤ 3) (urls_to_visit (self s)).
Proof.
  split; [vm_compute; reflexivity|].
  apply (fetched_depth_bounded "https://example.test" 1 3 Example.bare).
  vm_compute; reflexivity.
Defined.

Lemma results_same_domain_witness :
  start "https://example.test" 1 3 Example.bare = Ok (Example.seeded 1 3)
  ∧ ∃ parsed_base,
      urlparse (with_slash "https://example.test") = Ok parsed_base
      ∧ ∀ u, u ∈ result_urls (self (run (Example.seeded 1 3)
                                      Example.three_rounds)) →
          ∃ parsed, urlparse u = Ok parsed
            ∧ (netloc parsed = "" ∨ netloc parsed = netloc parsed_base).
Proof.
  split; [vm_compute; reflexivity|].
  apply (results_same_domain "https://example.test" 1 3 Example.bare).
  vm_compute; reflexivity.
Defined.

Lemma sitemap_seeds_frontier_witness :
  let c := Example.crawler0 500 3 in
  let urls := ["https://example.test/a"; "https://example.test/b"] in
  let c2 := set_sitemap_loaded (set_robots (λ _, Ok true) c) in
  init "https://example.test" 500 3 = Ok c
  ∧ urljoin (base_url c) "/sitemap.xml" = Ok "https://example.test/sitemap.xml"
  ∧ parse_sitemap (load_robots Example.mapped c)
      (sitemap_get Example.mapped "https://example.test/sitemap.xml")
    = (urls, c2)
  ∧ sitemap_loaded c2 = true
  ∧ urls ≠ []
  ∧ ∃ s0, start "https://example.test" 500 3 Example.mapped = Ok s0
      ∧ NoDup (urls_to_visit (self s0))
      ∧ (∀ e, e ∈ urls_to_visit (self s0) ↔ ∃ u, u ∈ urls ∧ e = (u, 0))
      ∧ ((base_url c, 0) ∈ urls_to_visit (self s0) → base_url c ∈ urls).
Proof.
  cbv zeta.
  assert (Hinit : init "https://example.test" 500 3
                  = Ok (Example.crawler0 500 3))
    by (vm_compute; reflexivity).
  assert (Hjoin : urljoin (base_url (Example.crawler0 500 3)) "/sitemap.xml"
                  = Ok "https://example.test/sitemap.xml")
    by (vm_compute; reflexivity).
  assert (Hparse :
    parse_sitemap (load_robots Example.mapped (Example.crawler0 500 3))
      (sitemap_get Example.mapped "https://example.test/sitemap.xml")
    = (["https://example.test/a"; "https://example.test/b"],
       set_sitemap_loaded
         (set_robots (λ _, Ok true) (Example.crawler0 500 3))))
    by (vm_compute; reflexivity).
  split; [exact Hinit|]. split; [exact Hjoin|]. split; [exact Hparse|].
  split; [reflexivity|]. split; [discriminate|].
  apply (sitemap_seeds_frontier _ _ _ _ _ _ _ _ Hinit Hjoin Hparse);
    [reflexivity|discriminate].
Defined.

(** C2 as stated does not hold: when a [loc] element without text follows
    a good one, [parse_sitemap] returns the non-empty set collected so far
    without setting [sitemap_loaded], and the queue is seeded with the base
    URL instead. *)
Lemma partial_sitemap_is_not_seeded :
  ¬ (∀ base mt md w c sitemap_url urls c2 s0,
       init base mt md = Ok c →
       urljoin (base_url c) "/sitemap.xml" = Ok sitemap_url →
       parse_sitemap (load_robots w c) (sitemap_get w sitemap_url)
       = (urls, c2) →
       urls ≠ [] →
       start base mt md w = Ok s0 →
       ∀ e, e ∈ urls_to_visit (self s0) ↔ ∃ u, u ∈ urls ∧ e = (u, 0)).
Proof.
  intros Hclaim.
  specialize (Hclaim "https://example.test" 500 3 Example.half_mapped
                (Example.crawler0 500 3) "https://example.test/sitemap.xml"
                ["https://example.test/a"] (Example.crawler0 500 3)
                (Example.seeded 500 3)).
  destruct (Hclaim ltac:(vm_compute; reflexivity) ltac:(vm_compute; reflexivity)
              ltac:(vm_compute; reflexivity) ltac:(discriminate)
              ltac:(vm_compute; reflexivity) ("https://example.test/", 0))
    as [Hseed _].
  destruct Hseed as (u & Hu & Heq); [by left|].
  apply list_elem_of_singleton in Hu as ->. discriminate Heq.
Qed.

Lemma homepage_seeds_frontier_witness :
  init "https://example.test" 500 3 = Ok (Example.crawler0 500 3)
  ∧ urljoin (base_url (Example.crawler0 500 3)) "/sitemap.xml"
    = Ok "https://example.test/sitemap.xml"
  ∧ parse_sitemap (load_robots Example.bare (Example.crawler0 500 3))
      (sitemap_get Example.bare "https://example.test/sitemap.xml")
    = ([], Example.crawler0 500 3)
  ∧ ∃ s0, start "https://example.test" 500 3 Example.bare = Ok s0
      ∧ urls_to_visit (self s0)
        = [(if Str.endswith "https://example.test" "/"
            then "https://example.test" else "https://example.test" +:+ "/",
            0)].
Proof.
  assert (Hinit : init "https://example.test" 500 3
                  = Ok (Example.crawler0 500 3))
    by (vm_compute; reflexivity).
  assert (Hjoin : urljoin (base_url (Example.crawler0 500 3)) "/sitemap.xml"
                  = Ok "https://example.test/sitemap.xml")
    by (vm_compute; reflexivity).
  assert (Hparse :
    parse_sitemap (load_robots Example.bare (Example.crawler0 500 3))
      (sitemap_get Example.bare "https://example.test/sitemap.xml")
    = ([], Example.crawler0 500 3))
    by (vm_compute; reflexivity).
  split; [exact Hinit|]. split; [exact Hjoin|]. split; [exact Hparse|].
  apply (homepage_seeds_frontier _ _ _ _ _ _ _ Hinit Hjoin Hparse).
Defined.

(** A sitemap that breaks off after its first entry: the entry is returned
    but the queue is seeded with the base URL. *)
Example half_mapped_falls_back :
  (parse_sitemap (load_robots Example.half_mapped (Example.crawler0 500 3))
     (sitemap_get Example.half_mapped "https://example.test/sitemap.xml")).1
  = ["https://example.test/a"]
  ∧ start "https://example.test" 500 3 Example.half_mapped
    = Ok (Example.seeded 500 3).
Proof. split; vm_compute; reflexivity. Qed.

(** With [max_tasks = 0] no entry is ever taken from the queue: whatever
    the schedule, the crawl stays at the head of its loop. *)
Example zero_tasks_never_returns (events : list event) :
  run (Example.seeded 0 3) events = Example.seeded 0 3.
Proof.
  induction events as [|e events IH]; [done|].
  rewrite run_cons. by destruct e as [| |].
Qed.

(** C3 as stated does not hold: for a base URL given without a trailing
    slash the seed is the stored base URL, which has one. *)
Lemma homepage_seed_has_trailing_slash :
  ¬ (∀ base mt md w c sitemap_url c2 s0,
       init base mt md = Ok c →
       urljoin (base_url c) "/sitemap.xml" = Ok sitemap_url →
       parse_sitemap (load_robots w c) (sitemap_get w sitemap_url) = ([], c2) →
       start base mt md w = Ok s0 →
       urls_to_visit (self s0) = [(base, 0)]).
Proof.
  intros Hclaim.
  specialize (Hclaim "https://example.test" 500 3 Example.bare
                (Example.crawler0 500 3) "https://example.test/sitemap.xml"
                (Example.crawler0 500 3) (Example.seeded 500 3)
                ltac:(vm_compute; reflexivity) ltac:(vm_compute; reflexivity)
                ltac:(vm_compute; reflexivity) ltac:(vm_compute; reflexivity)).
  vm_compute in Hclaim. discriminate Hclaim.
Qed.

(** C4 as stated does not hold: with one unit per round, a round whose
    only entry is filtered out as already visited leaves the loop running
    as long as the queue holds further entries. *)
Lemma filtered_batch_keeps_looping :
  ¬ (∀ s0 events,
       start "https://example.test" 1 3 Example.bare = Ok s0 →
       let s := run s0 events in
       phase s = Looping →
       forallb completed (tasks s) = true →
       (phase (step s Main) = Returned
        ↔ urls_to_visit (self s) = []
          ∨ (batch (self s) ≠ []
             ∧ Forall (λ e, ¬ admitted (self s) e) (batch (self s))))).
Proof.
  intros Hclaim.
  specialize (Hclaim (Example.seeded 1 3) Example.hub_rounds
                ltac:(vm_compute; reflexivity)).
  cbv zeta in Hclaim.
  destruct (Hclaim ltac:(vm_compute; reflexivity)
              ltac:(vm_compute; reflexivity)) as [_ Hexit].
  assert (Hbatch : batch (self (run (Example.seeded 1 3) Example.hub_rounds))
                   = [("https://example.test/b", 2)])
    by (vm_compute; reflexivity).
  assert (Hreturned :
    phase (step (run (Example.seeded 1 3) Example.hub_rounds) Main)
    = Returned).
  { apply Hexit. right. rewrite Hbatch. split; [discriminate|].
    apply Forall_singleton. intros [Hunvisited _]. apply Hunvisited.
    apply (bool_decide_unpack _). vm_compute. exact I. }
  vm_compute in Hreturned. discriminate Hreturned.
Qed.

(** The state in which the loop goes on after that round. *)
Example filtered_batch_next_state :
  let s := step (run (Example.seeded 1 3) Example.hub_rounds) Main in
  phase s = Looping
  ∧ tasks s = []
  ∧ urls_to_visit (self s)
    = [("https://example.test/c", 2); ("https://example.test/c", 2)].
Proof. vm_compute. repeat split. Qed.

Lemma parse_links_sound_witness :
  let c := Example.crawler0 500 3 in
  let links := ["https://example.test/a"; "https://example.test/b"] in
  parse_links c Example.home_html "https://example.test/" = Ok links
  ∧ ∀ u, u ∈ links →
      (∃ hrefs href joined,
          find_all_a_href Example.home_html = Ok hrefs
          ∧ href ∈ hrefs
          ∧ urljoin "https://example.test/" (Str.strip href) = Ok joined
          ∧ u = Str.rstrip_slash (Str.before_hash joined))
      ∧ (∃ parsed, urlparse u = Ok parsed
                   ∧ (netloc parsed = "" ∨ netloc parsed = base_domain c))
      ∧ (¬ ∃ ext p, ext ∈ irrelevant_exts ∧ Str.lower u = p +:+ ext)
      ∧ can_fetch c u = true.
Proof.
  cbv zeta. split; [vm_compute; reflexivity|].
  apply (parse_links_sound (Example.crawler0 500 3) Example.home_html
           "https://example.test/").
  vm_compute; reflexivity.
Defined.

(** C8 as stated does not hold: the anchor [/a.jpg?x=1] is extracted
    although the path of the resulting URL ends in [.jpg]. *)
Lemma extracted_path_ends_in_denylisted_extension :
  ¬ (∀ c html page links u parsed,
       parse_links c html page = Ok links →
       u ∈ links →
       urlparse u = Ok parsed →
       Str.endswith_any (Str.lower (path parsed)) irrelevant_exts = false).
Proof.
  intros Hclaim.
  specialize (Hclaim (Example.crawler0 500 3) Example.photo_html
                "https://example.test/" ["https://example.test/a.jpg?x=1"]
                "https://example.test/a.jpg?x=1"
                {| netloc := "example.test"; path := "/a.jpg" |}
                ltac:(vm_compute; reflexivity) ltac:(by left)
                ltac:(vm_compute; reflexivity)).
  vm_compute in Hclaim. discriminate Hclaim.
Qed.



Lemma listed_extension_rejected_witness :
  Str.lower ".JPG" ∈ irrelevant_exts
  ∧ is_valid_url ("https://example.test/Photo" +:+ ".JPG") = false.
Proof.
  assert (Hext : Str.lower ".JPG" ∈ irrelevant_exts)
    by (apply (bool_decide_unpack _); vm_compute; exact I).
  split; [exact Hext|].
  apply (listed_extension_rejected "https://example.test/Photo" ".JPG" Hext).
Defined.

Lemma short_body_is_no_content_witness :
  (String.length "<html>moved</html>" ≤ 100)%nat
  ∧ fetch (GetResponse 200 (Ok "<html>moved</html>")) = Ok None.
Proof.
  assert (Hlen : (String.length "<html>moved</html>" ≤ 100)%nat)
    by (vm_compute; lia).
  split; [exact Hlen|].
  apply (short_body_is_no_content 200 "<html>moved</html>" Hlen).
Defined.

Lemma init_idempotent_witness :
  init "https://example.test" 500 3 = Ok (Example.crawler0 500 3)
  ∧ Str.endswith (base_url (Example.crawler0 500 3)) "/" = true
  ∧ init (base_url (Example.crawler0 500 3)) 500 3
    = Ok (Example.crawler0 500 3).
Proof.
  assert (Hinit : init "https://example.test" 500 3
                  = Ok (Example.crawler0 500 3))
    by (vm_compute; reflexivity).
  split; [exact Hinit|].
  apply (init_idempotent "https://example.test" 500 3 _ Hinit).
Defined.

Lemma gate_denies_iff_witness :
  robots_loaded (Example.crawler0 500 3) = false
  ∧ (can_fetch (load_robots Example.guarded (Example.crawler0 500 3))
       "https://example.test/private/a" = false
     ↔ ∃ robots_url policy,
         urljoin (base_url (Example.crawler0 500 3)) "/robots.txt"
         = Ok robots_url
         ∧ robots_read Example.guarded robots_url = Ok policy
         ∧ policy "https://example.test/private/a" = Ok false).
Proof.
  assert (Hloaded : robots_loaded (Example.crawler0 500 3) = false)
    by reflexivity.
  split; [exact Hloaded|].
  apply (gate_denies_iff Example.guarded (Example.crawler0 500 3)
           "https://example.test/private/a" Hloaded).
Defined.

Lemma links_have_no_fragment_nor_slash_witness :
  parse_links (Example.crawler0 500 3) Example.home_html
    "https://example.test/"
  = Ok ["https://example.test/a"; "https://example.test/b"]
  ∧ ∀ u, u ∈ ["https://example.test/a"; "https://example.test/b"] →
      Str.endswith u "/" = false ∧ ∀ p q, u ≠ p +:+ String "#" q.
Proof.
  assert (Hparse :
    parse_links (Example.crawler0 500 3) Example.home_html
      "https://example.test/"
    = Ok ["https://example.test/a"; "https://example.test/b"])
    by (vm_compute; reflexivity).
  split; [exact Hparse|].
  apply (links_have_no_fragment_nor_slash _ _ _ _ Hparse).
Defined.

Lemma base_url_is_never_a_link_witness :
  init "https://example.test" 500 3 = Ok (Example.crawler0 500 3)
  ∧ parse_links (Example.crawler0 500 3) Example.home_html
      "https://example.test/"
    = Ok ["https://example.test/a"; "https://example.test/b"]
  ∧ base_url (Example.crawler0 500 3)
    ∉ ["https://example.test/a"; "https://example.test/b"].
Proof.
  assert (Hinit : init "https://example.test" 500 3
                  = Ok (Example.crawler0 500 3))
    by (vm_compute; reflexivity).
  assert (Hparse :
    parse_links (Example.crawler0 500 3) Example.home_html
      "https://example.test/"
    = Ok ["https://example.test/a"; "https://example.test/b"])
    by (vm_compute; reflexivity).
  split; [exact Hinit|]. split; [exact Hparse|].
  apply (base_url_is_never_a_link _ _ _ _ _ _ _ Hinit Hparse).
Defined.

Lemma parse_links_complete_witness :
  parse_links (Example.crawler0 500 3) Example.a_html
    "https://example.test/a"
  = Ok ["https://example.test/b"; "https://example.test/c"]
  ∧ ∃ hrefs, find_all_a_href Example.a_html = Ok hrefs ∧
    ∀ href, href ∈ hrefs →
      ∃ joined internal,
        urljoin "https://example.test/a" (Str.strip href) = Ok joined
        ∧ is_internal (Example.crawler0 500 3)
            (Str.rstrip_slash (Str.before_hash joined)) = Ok internal
        ∧ (Str.rstrip_slash (Str.before_hash joined)
           ∈ ["https://example.test/b"; "https://example.test/c"]
           ↔ internal = true
             ∧ is_valid_url (Str.rstrip_slash (Str.before_hash joined)) = true
             ∧ can_fetch (Example.crawler0 500 3)
                 (Str.rstrip_slash (Str.before_hash joined)) = true).
Proof.
  assert (Hparse :
    parse_links (Example.crawler0 500 3) Example.a_html
      "https://example.test/a"
    = Ok ["https://example.test/b"; "https://example.test/c"])
    by (vm_compute; reflexivity).
  split; [exact Hparse|].
  apply (parse_links_complete _ _ _ _ Hparse).
Defined.

Lemma parse_sitemap_exact_witness :
  let c := Example.crawler0 500 3 in
  let r := sitemap_get Example.mapped "https://example.test/sitemap.xml" in
  let urls := ["https://example.test/a"; "https://example.test/b"] in
  parse_sitemap c r = (urls, set_sitemap_loaded c)
  ∧ sitemap_loaded c = false
  ∧ (urls ≠ [] ∨ sitemap_loaded (set_sitemap_loaded c) = true)
  ∧ ∃ text locs,
      r = GetResponse 200 (Ok text) ∧ findall_loc text = Ok locs
      ∧ (∀ u, u ∈ urls →
           ∃ t, Some t ∈ locs ∧ u = Str.strip t
                ∧ is_internal c u = Ok true ∧ is_valid_url u = true)
      ∧ (sitemap_loaded (set_sitemap_loaded c) = true →
         (None ∉ locs)
         ∧ ∀ t, Some t ∈ locs →
             is_internal c (Str.strip t) = Ok true →
             is_valid_url (Str.strip t) = true →
             Str.strip t ∈ urls).
Proof.
  cbv zeta.
  assert (Hparse :
    parse_sitemap (Example.crawler0 500 3)
      (sitemap_get Example.mapped "https://example.test/sitemap.xml")
    = (["https://example.test/a"; "https://example.test/b"],
       set_sitemap_loaded (Example.crawler0 500 3)))
    by (vm_compute; reflexivity).
  assert (Hfresh : sitemap_loaded (Example.crawler0 500 3) = false)
    by reflexivity.
  assert (Hsome :
    ["https://example.test/a"; "https://example.test/b"] ≠ ([] : list string)
    ∨ sitemap_loaded (set_sitemap_loaded (Example.crawler0 500 3)) = true)
    by (right; reflexivity).
  split; [exact Hparse|]. split; [exact Hfresh|]. split; [exact Hsome|].
  apply (parse_sitemap_exact _ _ _ _ Hparse Hfresh Hsome).
Defined.

Lemma results_pass_extension_test_witness :
  start "https://example.test" 1 3 Example.bare = Ok (Example.seeded 1 3)
  ∧ ∀ u, u ∈ result_urls (self (run (Example.seeded 1 3)
                                  Example.three_rounds)) →
      is_valid_url u = true.
Proof.
  assert (Hstart : start "https://example.test" 1 3 Example.bare
                   = Ok (Example.seeded 1 3))
    by (vm_compute; reflexivity).
  split; [exact Hstart|].
  apply (results_pass_extension_test _ _ _ _ _ Example.three_rounds Hstart).
Defined.


Lemma results_visited_and_dispatched_witness :
  start "https://example.test" 1 3 Example.bare = Ok (Example.seeded 1 3)
  ∧ let s := run (Example.seeded 1 3) Example.three_rounds in
    (∀ u, u ∈ result_urls (self s) → u ∈ visited_urls (self s))
    ∧ (∀ u, u ∈ visited_urls (self s) → u ∈ (created s).*1).
Proof.
  assert (Hstart : start "https://example.test" 1 3 Example.bare
                   = Ok (Example.seeded 1 3))
    by (vm_compute; reflexivity).
  split; [exact Hstart|].
  apply (results_visited_and_dispatched _ _ _ _ _ Example.three_rounds Hstart).
Defined.

Lemma results_at_most_units_witness :
  start "https://example.test" 1 3 Example.bare = Ok (Example.seeded 1 3)
  ∧ (length (result_urls (self (run (Example.seeded 1 3)
                                  Example.three_rounds)))
     ≤ length (created (run (Example.seeded 1 3) Example.three_rounds)))%nat.
Proof.
  assert (Hstart : start "https://example.test" 1 3 Example.bare
                   = Ok (Example.seeded 1 3))
    by (vm_compute; reflexivity).
  split; [exact Hstart|].
  apply (results_at_most_units _ _ _ _ _ Example.three_rounds Hstart).
Defined.

Lemma round_within_max_tasks_witness :
  start "https://example.test" 1 3 Example.bare = Ok (Example.seeded 1 3)
  ∧ Z.of_nat (length (tasks (run (Example.seeded 1 3) Example.hub_rounds)))
    ≤ 1.
Proof.
  assert (Hstart : start "https://example.test" 1 3 Example.bare
                   = Ok (Example.seeded 1 3))
    by (vm_compute; reflexivity).
  split; [exact Hstart|].
  apply (round_within_max_tasks _ _ _ _ _ Example.hub_rounds Hstart).
Defined.

Lemma round_takes_queue_front_witness :
  let s := run (Example.seeded 1 3) Example.hub_rounds in
  phase s = Looping
  ∧ forallb completed (tasks s) = true
  ∧ urls_to_visit (self s) ≠ []
  ∧ let s' := step s Main in
    urls_to_visit (self s')
    = drop (batch_size (self s)) (urls_to_visit (self s))
    ∧ created s' = created s ++ filter (admitted (self s)) (batch (self s))
    ∧ tasks s' = new_task <$> filter (admitted (self s)) (batch (self s))
    ∧ visited_urls (self s') = visited_urls (self s)
    ∧ result_urls (self s') = result_urls (self s)
    ∧ phase s' = Looping.
Proof.
  cbv zeta.
  assert (Hphase : phase (run (Example.seeded 1 3) Example.hub_rounds)
                   = Looping)
    by (vm_compute; reflexivity).
  assert (Hall : forallb completed
                   (tasks (run (Example.seeded 1 3) Example.hub_rounds))
                 = true)
    by (vm_compute; reflexivity).
  assert (Hq : urls_to_visit (self (run (Example.seeded 1 3)
                                      Example.hub_rounds)) ≠ [])
    by (vm_compute; discriminate).
  split; [exact Hphase|]. split; [exact Hall|]. split; [exact Hq|].
  apply (round_takes_queue_front _ Hphase Hall Hq).
Defined.

Lemma returned_is_final_witness :
  start "https://example.test" 500 3 Example.bare = Ok (Example.seeded 500 3)
  ∧ phase (run (Example.seeded 500 3) Example.failed_round) = Returned
  ∧ run (Example.seeded 500 3) (Example.failed_round ++ Example.hub_rounds)
    = run (Example.seeded 500 3) Example.failed_round.
Proof.
  assert (Hstart : start "https://example.test" 500 3 Example.bare
                   = Ok (Example.seeded 500 3))
    by (vm_compute; reflexivity).
  assert (Hphase : phase (run (Example.seeded 500 3) Example.failed_round)
                   = Returned)
    by (vm_compute; reflexivity).
  split; [exact Hstart|]. split; [exact Hphase|].
  apply (returned_is_final _ _ _ _ _ _ Example.hub_rounds Hstart Hphase).
Defined.

Lemma failed_is_final_witness :
  let s := run (Example.seeded 500 3)
             [Main; Start 0; Finish 0 (Example.ok Example.broken_link_html)] in
  phase s = Failed
  ∧ phase (run s Example.hub_rounds) = Failed
  ∧ created (run s Example.hub_rounds) = created s.
Proof.
  cbv zeta.
  assert (Hphase :
    phase (run (Example.seeded 500 3)
             [Main; Start 0; Finish 0 (Example.ok Example.broken_link_html)])
    = Failed)
    by (vm_compute; reflexivity).
  split; [exact Hphase|].
  apply (failed_is_final _ Example.hub_rounds Hphase).
Defined.

Lemma zero_tasks_never_ends_witness :
  start "https://example.test" 0 3 Example.bare = Ok (Example.seeded 0 3)
  ∧ run (Example.seeded 0 3) Example.hub_rounds = Example.seeded 0 3
  ∧ phase (Example.seeded 0 3) = Looping
  ∧ created (Example.seeded 0 3) = [].
Proof.
  assert (Hstart : start "https://example.test" 0 3 Example.bare
                   = Ok (Example.seeded 0 3))
    by (vm_compute; reflexivity).
  split; [exact Hstart|].
  apply (zero_tasks_never_ends _ _ _ _ Example.hub_rounds Hstart).
Defined.

Lemma negative_depth_fetches_nothing_witness :
  start "https://example.test" 500 (-1) Example.bare
  = Ok (Example.seeded 500 (-1))
  ∧ -1 < 0
  ∧ created (run (Example.seeded 500 (-1)) Example.hub_rounds) = []
  ∧ result_urls (self (run (Example.seeded 500 (-1)) Example.hub_rounds)) = [].
Proof.
  assert (Hstart : start "https://example.test" 500 (-1) Example.bare
                   = Ok (Example.seeded 500 (-1)))
    by (vm_compute; reflexivity).
  assert (Hmd : -1 < 0) by lia.
  split; [exact Hstart|]. split; [exact Hmd|].
  apply (negative_depth_fetches_nothing _ _ _ _ _ Example.hub_rounds
           Hstart Hmd).
Defined.

Lemma depth_zero_keeps_to_seeds_witness :
  start "https://example.test" 500 0 Example.bare = Ok (Example.seeded 500 0)
  ∧ 0 ≤ 0
  ∧ let s := run (Example.seeded 500 0) Example.hub_rounds in
    (∀ e, e ∈ urls_to_visit (self s) →
       e.1 ∈ (urls_to_visit (self (Example.seeded 500 0))).*1)
    ∧ (∀ u, u ∈ result_urls (self s) →
         u ∈ (urls_to_visit (self (Example.seeded 500 0))).*1).
Proof.
  assert (Hstart : start "https://example.test" 500 0 Example.bare
                   = Ok (Example.seeded 500 0))
    by (vm_compute; reflexivity).
  assert (Hmd : 0 ≤ 0) by lia.
  split; [exact Hstart|]. split; [exact Hmd|].
  apply (depth_zero_keeps_to_seeds _ _ _ _ _ Example.hub_rounds Hstart Hmd).
Defined.

Lemma unparsable_link_fails_crawl_witness :
  let s := run (Example.seeded 500 3) [Main; Start 0] in
  let t := {| t_url := "https://example.test/"; t_depth := 0;
              t_status := Awaiting |} in
  let r := Example.ok Example.broken_link_html in
  tasks s !! 0%nat = Some t
  ∧ t_status t = Awaiting
  ∧ fetch r = Ok (Some Example.broken_link_html)
  ∧ t_depth t < max_depth (self s)
  ∧ parse_links (self s) Example.broken_link_html (t_url t) = Raise
  ∧ let s' := step s (Finish 0 r) in
    phase s' = Failed
    ∧ result_urls (self s') = result_urls (self s) ++ [t_url t]
    ∧ urls_to_visit (self s') = urls_to_visit (self s)
    ∧ created s' = created s.
Proof.
  cbv zeta.
  assert (Hi : tasks (run (Example.seeded 500 3) [Main; Start 0]) !! 0%nat
               = Some {| t_url := "https://example.test/"; t_depth := 0;
                         t_status := Awaiting |})
    by (vm_compute; reflexivity).
  assert (Hstatus : t_status {| t_url := "https://example.test/";
                                t_depth := 0; t_status := Awaiting |}
                    = Awaiting)
    by reflexivity.
  assert (Hfetch : fetch (Example.ok Example.broken_link_html)
                   = Ok (Some Example.broken_link_html))
    by (vm_compute; reflexivity).
  assert (Hdepth : t_depth {| t_url := "https://example.test/"; t_depth := 0;
                              t_status := Awaiting |}
                   < max_depth (self (run (Example.seeded 500 3)
                                        [Main; Start 0])))
    by (vm_compute; reflexivity).
  assert (Hraise :
    parse_links (self (run (Example.seeded 500 3) [Main; Start 0]))
      Example.broken_link_html
      (t_url {| t_url := "https://example.test/"; t_depth := 0;
                t_status := Awaiting |})
    = Raise)
    by (vm_compute; reflexivity).
  split; [exact Hi|]. split; [exact Hstatus|]. split; [exact Hfetch|].
  split; [exact Hdepth|]. split; [exact Hraise|].
  apply (unparsable_link_fails_crawl _ _ _ _ _ Hi Hstatus Hfetch Hdepth Hraise).
Defined.

Lemma unit_appends_new_links_witness :
  let s := run (Example.seeded 1 3) [Main; Start 0] in
  let t := {| t_url := "https://example.test/"; t_depth := 0;
              t_status := Awaiting |} in
  let extracted := ["https://example.test/a"; "https://example.test/b";
                    "https://example.test/c"] in
  start "https://example.test" 1 3 Example.bare = Ok (Example.seeded 1 3)
  ∧ tasks s !! 0%nat = Some t
  ∧ t_status t = Awaiting
  ∧ fetch (Example.ok Example.hub_html) = Ok (Some Example.hub_html)
  ∧ t_depth t < max_depth (self s)
  ∧ parse_links (self s) Example.hub_html (t_url t) = Ok extracted
  ∧ ∃ links,
      urls_to_visit (self (step s (Finish 0 (Example.ok Example.hub_html))))
      = urls_to_visit (self s) ++ ((λ l, (l, t_depth t + 1)) <$> links)
      ∧ NoDup links
      ∧ (∀ l, l ∈ links ↔ l ∈ extracted ∧ l ∉ visited_urls (self s))
      ∧ (t_url t ∉ links)
      ∧ result_urls (self (step s (Finish 0 (Example.ok Example.hub_html))))
        = result_urls (self s) ++ [t_url t].
Proof.
  cbv zeta.
  assert (Hstart : start "https://example.test" 1 3 Example.bare
                   = Ok (Example.seeded 1 3))
    by (vm_compute; reflexivity).
  assert (Hi : tasks (run (Example.seeded 1 3) [Main; Start 0]) !! 0%nat
               = Some {| t_url := "https://example.test/"; t_depth := 0;
                         t_status := Awaiting |})
    by (vm_compute; reflexivity).
  assert (Hstatus : t_status {| t_url := "https://example.test/";
                                t_depth := 0; t_status := Awaiting |}
                    = Awaiting)
    by reflexivity.
  assert (Hfetch : fetch (Example.ok Example.hub_html)
                   = Ok (Some Example.hub_html))
    by (vm_compute; reflexivity).
  assert (Hdepth : t_depth {| t_url := "https://example.test/"; t_depth := 0;
                              t_status := Awaiting |}
                   < max_depth (self (run (Example.seeded 1 3)
                                        [Main; Start 0])))
    by (vm_compute; reflexivity).
  assert (Hparse :
    parse_links (self (run (Example.seeded 1 3) [Main; Start 0]))
      Example.hub_html
      (t_url {| t_url := "https://example.test/"; t_depth := 0;
                t_status := Awaiting |})
    = Ok ["https://example.test/a"; "https://example.test/b";
          "https://example.test/c"])
    by (vm_compute; reflexivity).
  split; [exact Hstart|]. split; [exact Hi|]. split; [exact Hstatus|].
  split; [exact Hfetch|]. split; [exact Hdepth|]. split; [exact Hparse|].
  apply (unit_appends_new_links _ _ _ _ _ [Main; Start 0] _ _ _ _ _
           Hstart Hi Hstatus Hfetch Hdepth Hparse).
Defined.
